(** * Budget allocation optimizer (csp-solver-v4.ipynb)

    A shallow embedding of
    [optimize_budget_with_weighted_quadratic_loss_custom_units]: the input
    dictionary, the weight heuristic, the CP-SAT model the function builds
    and the extraction of the result, followed by the properties of the
    returned allocation.

    The CP-SAT engine is an external collaborator.  It appears here as a
    function from models to a status and a value for every variable, and
    the theorems state what they need of it ([SolverContract]). *)

From Stdlib Require Import ZArith Lia List Bool.
From Stdlib Require Import SpecFloat.
From stdpp Require Import gmap strings.

Open Scope Z_scope.

(** ** Python numbers *)

(** The exceptions the function can raise before it reaches the solver. *)
Inductive exn : Type :=
| ZeroDivisionError
| OverflowError
| ValueError
| TypeError.

(** Values of the input dictionary: Python [int] and [bool] ([bool] is a
    subclass of [int], [True] counts as 1). *)
Inductive pyval : Type :=
| PyInt (z : Z)
| PyBool (b : bool).

Definition int_of (v : pyval) : Z :=
  match v with
  | PyInt z => z
  | PyBool b => Z.b2z b
  end.

(** [d.get(key, 0)] read as an integer. *)
Definition get (d : gmap string pyval) (key : string) : Z :=
  match d !! key with
  | Some v => int_of v
  | None => 0
  end.

(** Python [float] is IEEE 754 binary64; its operations are the ones of
    the specification of floats of the standard library. *)
Module PyFloat.

Definition prec : Z := 53.
Definition emax : Z := 1024.

(** [float(z)] for a Python int: correctly rounded, [OverflowError]
    when the integer is too large. *)
Definition of_int (z : Z) : exn + spec_float :=
  match binary_normalize prec emax z 0 false with
  | S754_infinity _ => inl OverflowError
  | f => inr f
  end.

(** The integer [z] as an unrounded float datum, the operand of a
    correctly rounded division. *)
Definition exact (z : Z) : spec_float :=
  match z with
  | Z0 => S754_zero false
  | Zpos p => S754_finite false p 0
  | Zneg p => S754_finite true p 0
  end.

(** [a / b] on two Python ints: the correctly rounded quotient. *)
Definition truediv (a b : Z) : exn + spec_float :=
  if b =? 0 then inl ZeroDivisionError
  else match SFdiv prec emax (exact a) (exact b) with
       | S754_infinity _ => inl OverflowError
       | f => inr f
       end.

(** [x * z] for a float [x] and a Python int [z]. *)
Definition mul_int (x : spec_float) (z : Z) : exn + spec_float :=
  match of_int z with
  | inl e => inl e
  | inr y => inr (SFmul prec emax x y)
  end.

(** [int(x)]: truncation toward zero. *)
Definition to_int (x : spec_float) : exn + Z :=
  match x with
  | S754_zero _ => inr 0
  | S754_finite s m e =>
      inr (cond_Zopp s
             (match e with
              | Zneg p => Z.pos m / 2 ^ Z.pos p
              | _ => Z.pos m * 2 ^ e
              end))
  | S754_infinity _ => inl OverflowError
  | S754_nan => inl ValueError
  end.

(** [round(x)] with one argument: the nearest integer, ties to even. *)
Definition round (x : spec_float) : exn + Z :=
  match x with
  | S754_zero _ => inr 0
  | S754_finite s m e =>
      inr (cond_Zopp s
             (match e with
              | Zneg p =>
                  let d := 2 ^ Z.pos p in
                  let q := Z.pos m / d in
                  let r := Z.pos m mod d in
                  match 2 * r ?= d with
                  | Lt => q
                  | Gt => q + 1
                  | Eq => if Z.even q then q else q + 1
                  end
              | _ => Z.pos m * 2 ^ e
              end))
  | S754_infinity _ => inl OverflowError
  | S754_nan => inl ValueError
  end.

(** The literals [0.2], [0.5] and [0.3] as binary64 data. *)
Definition lit_0_2 : spec_float := S754_finite false 7205759403792794 (-55).
Definition lit_0_5 : spec_float := S754_finite false 4503599627370496 (-53).
Definition lit_0_3 : spec_float := S754_finite false 5404319552844595 (-54).

End PyFloat.

(** ** Error monad *)

Definition bindE {A B : Type} (x : exn + A) (f : A -> exn + B) : exn + B :=
  match x with
  | inl e => inl e
  | inr a => f a
  end.

Declare Scope exn_scope.
Delimit Scope exn_scope with exn.
Notation "'try' x ':=' c 'in' k" := (bindE c (fun x => k))
  (at level 10, x pattern, c at level 100, k at level 200) : exn_scope.

(** ** Categories, step factors and weights *)

Definition categories : list string :=
  ["transport_expenditure"; "food_expenditure"; "housing_expenditure";
   "insurance_expenditure"; "other_needs_expenditure";
   "investment_expenditure"; "monthly_savings"; "total_needs";
   "total_wants"]%string.

Definition needs_categories : list string :=
  ["transport_expenditure"; "food_expenditure"; "housing_expenditure";
   "insurance_expenditure"; "other_needs_expenditure"]%string.

(** The [factors] dictionary: 10 for transport, 50 for the others. *)
Definition factors : gmap string Z :=
  foldl (fun fs cat =>
           if String.eqb cat "transport_expenditure"
           then <[cat := 10]> fs
           else <[cat := 50]> fs)
        ∅ categories.

(** [d[key]] on one of the dictionaries the function builds itself, all
    keyed by [categories]. *)
Definition item {V : Type} `{Inhabited V} (d : gmap string V) (key : string) : V :=
  d !!! key.

(** The derived entries: [current_total_needs] and [current_total_wants]. *)
Definition current_total_needs (current_allocations : gmap string pyval) : Z :=
  foldl (fun acc cat => acc + get current_allocations cat) 0 needs_categories.

Definition current_total_wants (current_allocations : gmap string pyval) : Z :=
  get current_allocations "monthly_take_home"
  - current_total_needs current_allocations
  - get current_allocations "monthly_savings".

(** The two assignments [current_allocations['total_needs'] = ...] and
    [current_allocations['total_wants'] = ...]: they write into the
    caller's dictionary. *)
Definition update_totals (current_allocations : gmap string pyval)
  : gmap string pyval :=
  <["total_wants" := PyInt (current_total_wants current_allocations)]>
    (<["total_needs" := PyInt (current_total_needs current_allocations)]>
       current_allocations).

(** [max(1, int(round(scale / (current_val + 1))))]. *)
Definition weight (scale current_val : Z) : exn + Z :=
  (try w := PyFloat.truediv scale (current_val + 1) in
   try r := PyFloat.round w in
   inr (Z.max 1 r))%exn.

(** The loop that fills the [weights] dictionary. *)
Definition compute_weights (current_allocations : gmap string pyval) (scale : Z)
  : exn + gmap string Z :=
  foldl (fun acc cat =>
           (try weights := acc in
            try w := weight scale (get current_allocations cat) in
            inr (<[cat := w]> weights))%exn)
        (inr ∅) categories.

(** ** The CP-SAT model *)

(** Linear expressions over the model's variables, as the overloaded
    operators of the solver's Python interface build them.  A variable is
    the position at which [NewIntVar] created it. *)
Inductive LinearExpr : Type :=
| Var (i : nat)
| Const (c : Z)
| Plus (a b : LinearExpr)
| Minus (a b : LinearExpr)
| Times (c : Z) (a : LinearExpr).

Inductive Constraint : Type :=
| Equals (a b : LinearExpr)
| AtLeast (a b : LinearExpr)
| AtMost (a b : LinearExpr)
| MultiplicationEquality (target : nat) (operands : list nat).

Record IntVar : Type := mkIntVar { lb : Z; ub : Z; name : string }.

Record CpModel : Type := mkCpModel {
  variables : list IntVar;
  constraints : list Constraint;
  objective : LinearExpr
}.

Definition empty_model : CpModel :=
  {| variables := []; constraints := []; objective := Const 0 |}.

(** Model construction threads the model under construction and can raise. *)
Definition Build (A : Type) : Type := CpModel -> exn + (A * CpModel).

Definition ret {A : Type} (x : A) : Build A := fun m => inr (x, m).

Definition bind {A B : Type} (c : Build A) (k : A -> Build B) : Build B :=
  fun m => match c m with
           | inl e => inl e
           | inr (x, m') => k x m'
           end.

Definition raise_or {A : Type} (x : exn + A) : Build A :=
  fun m => match x with
           | inl e => inl e
           | inr a => inr (a, m)
           end.

Declare Scope build_scope.
Delimit Scope build_scope with build.
Notation "'let*' x ':=' c 'in' k" := (bind c (fun x => k))
  (at level 10, x name, c at level 100, k at level 200) : build_scope.

(** The integers of the solver are 64-bit: its interface refuses a bound
    or a constant outside [-2^63, 2^63 - 1] with a [TypeError]. *)
Definition in_int64 (z : Z) : bool :=
  (- 2 ^ 63 <=? z) && (z <=? 2 ^ 63 - 1).

Fixpoint constants_fit (e : LinearExpr) : bool :=
  match e with
  | Var _ => true
  | Const c => in_int64 c
  | Plus a b => constants_fit a && constants_fit b
  | Minus a b => constants_fit a && constants_fit b
  | Times c a => in_int64 c && constants_fit a
  end.

Definition constraint_fits (c : Constraint) : bool :=
  match c with
  | Equals a b => constants_fit a && constants_fit b
  | AtLeast a b => constants_fit a && constants_fit b
  | AtMost a b => constants_fit a && constants_fit b
  | MultiplicationEquality _ _ => true
  end.

(** [model.NewIntVar(lb, ub, name)]: [TypeError] when a bound is not a
    64-bit integer. *)
Definition NewIntVar (l u : Z) (nm : string) : Build nat :=
  fun m => if in_int64 l && in_int64 u
           then inr (length (variables m),
                     {| variables := variables m ++ [mkIntVar l u nm];
                        constraints := constraints m;
                        objective := objective m |})
           else inl TypeError.

(** [model.Add(c)] for a comparison [c] of two linear expressions:
    [TypeError] when a constant of [c] is not a 64-bit integer. *)
Definition Add (c : Constraint) : Build unit :=
  fun m => if constraint_fits c
           then inr (tt,
                     {| variables := variables m;
                        constraints := constraints m ++ [c];
                        objective := objective m |})
           else inl TypeError.

(** [model.AddMultiplicationEquality(target, operands)] *)
Definition AddMultiplicationEquality (target : nat) (operands : list nat)
  : Build unit :=
  fun m => inr (tt,
                {| variables := variables m;
                   constraints :=
                     constraints m ++ [MultiplicationEquality target operands];
                   objective := objective m |}).

(** [model.Minimize(e)] *)
Definition Minimize (e : LinearExpr) : Build unit :=
  fun m => inr (tt,
                {| variables := variables m;
                   constraints := constraints m;
                   objective := e |}).

(** Python's [sum] of a sequence of expressions: it starts from [0]. *)
Definition sum_exprs (es : list LinearExpr) : LinearExpr :=
  foldl Plus (Const 0) es.

(** The dictionaries of decision variables and the list of objective
    terms that the variable loop fills. *)
Record Vars : Type := mkVars {
  unit_vars : gmap string nat;
  alloc_vars : gmap string nat;
  quad_vars : gmap string nat;
  weighted_quad_terms : list LinearExpr
}.

Definition no_vars : Vars :=
  {| unit_vars := ∅; alloc_vars := ∅; quad_vars := ∅;
     weighted_quad_terms := [] |}.

(** The body of [for cat in categories] that creates the variables. *)
Definition add_category (current_allocations : gmap string pyval)
    (weights : gmap string Z) (income : Z) (vs : Vars) (cat : string)
  : Build Vars :=
  (let factor := item factors cat in
   let max_units := income / factor in
   let* u := NewIntVar 0 max_units (cat +:+ "_units") in
   let* al := NewIntVar 0 income (cat +:+ "_allocation") in
   let* _ := Add (Equals (Var al) (Times factor (Var u))) in
   let current_val := get current_allocations cat in
   let* dev := NewIntVar (- income) income ("dev_" +:+ cat) in
   let* _ := Add (Equals (Var dev) (Minus (Var al) (Const current_val))) in
   let* quad := NewIntVar 0 (income ^ 2) ("quad_" +:+ cat) in
   let* _ := AddMultiplicationEquality quad [dev; dev] in
   let weighted_term := Times (item weights cat) (Var quad) in
   ret {| unit_vars := <[cat := u]> (unit_vars vs);
          alloc_vars := <[cat := al]> (alloc_vars vs);
          quad_vars := <[cat := quad]> (quad_vars vs);
          weighted_quad_terms := weighted_quad_terms vs ++ [weighted_term] |})%build.

Fixpoint for_each {A B : Type} (f : A -> B -> Build A) (acc : A) (l : list B)
  : Build A :=
  match l with
  | [] => ret acc
  | x :: l' => (let* acc' := f acc x in for_each f acc' l')%build
  end.

(** [int(c * income)] for a float literal [c]. *)
Definition int_fraction (c : spec_float) (income : Z) : exn + Z :=
  (try p := PyFloat.mul_int c income in PyFloat.to_int p)%exn.

(** Everything between [model = cp_model.CpModel()] and
    [model.Minimize(...)], for the dictionary as the function has updated
    it and the weights it has computed. *)
Definition build_model (current_allocations : gmap string pyval)
    (weights : gmap string Z) (income : Z) : Build Vars :=
  (let* vs := for_each (add_category current_allocations weights income)
                  no_vars categories in
   let* _ := Add (Equals
          (sum_exprs (map (fun cat => Var (item (alloc_vars vs) cat))
                          needs_categories))
          (Var (item (alloc_vars vs) "total_needs"))) in
   let* _ := Add (Equals
          (sum_exprs (map (fun cat => Var (item (alloc_vars vs) cat))
                          ["total_needs"; "total_wants"; "monthly_savings"]%string))
          (Const income)) in
   let* savings_floor := raise_or (int_fraction PyFloat.lit_0_2 income) in
   let* _ := Add (AtLeast (Var (item (alloc_vars vs) "monthly_savings"))
                (Const savings_floor)) in
   let* needs_ceiling := raise_or (int_fraction PyFloat.lit_0_5 income) in
   let* _ := Add (AtMost (Var (item (alloc_vars vs) "total_needs"))
               (Const needs_ceiling)) in
   let* wants_ceiling := raise_or (int_fraction PyFloat.lit_0_3 income) in
   let* _ := Add (AtMost (Var (item (alloc_vars vs) "total_wants"))
               (Const wants_ceiling)) in
   let* _ := Minimize (sum_exprs (weighted_quad_terms vs)) in
   ret vs)%build.

(** ** The solver and the function *)

Inductive CpSolverStatus : Type :=
| UNKNOWN
| MODEL_INVALID
| FEASIBLE
| INFEASIBLE
| OPTIMAL.

(** [solver.Solve(model)] followed by [solver.Value]: a status and a value
    for every variable. *)
Definition Solver : Type := CpModel -> CpSolverStatus * (nat -> Z).

Definition is_solution (st : CpSolverStatus) : bool :=
  match st with
  | OPTIMAL | FEASIBLE => true
  | _ => false
  end.

(** What a call does to its caller: it raises, or it returns the pair
    [(result, total_weighted_quad_loss)], or the pair [(None, None)]. *)
Inductive outcome : Type :=
| Raises (e : exn)
| Returns (r : option (gmap string Z * Z)).

(** The state of a call when it reaches [solver.Solve]: the weights, the
    variable dictionaries and the model. *)
Record Prepared : Type := mkPrepared {
  weights_of : gmap string Z;
  vars_of : Vars;
  model_of : CpModel
}.

(** The part of the function that runs after the dictionary update and
    before the solver. *)
Definition prepare (current_allocations : gmap string pyval)
    (income scale : Z) : exn + Prepared :=
  (try weights := compute_weights current_allocations scale in
   try built := build_model current_allocations weights income empty_model in
   inr {| weights_of := weights; vars_of := built.1; model_of := built.2 |})%exn.

(** The [if status in (OPTIMAL, FEASIBLE)] at the end. *)
Definition extract (p : Prepared) (r : CpSolverStatus * (nat -> Z))
  : option (gmap string Z * Z) :=
  let (status, Value) := r in
  if is_solution status then
    let result :=
      foldl (fun d cat => <[cat := Value (item (alloc_vars (vars_of p)) cat)]> d)
            ∅ categories in
    let total_weighted_quad_loss :=
      foldl (fun acc cat =>
               acc + Value (item (quad_vars (vars_of p)) cat)
                     * item (weights_of p) cat)
            0 categories in
    Some (result, total_weighted_quad_loss)
  else None.

(** [optimize_budget_with_weighted_quadratic_loss_custom_units]: the
    caller's dictionary after the call, and the outcome. *)
Definition optimize (Solve : Solver) (current_allocations : gmap string pyval)
    (scale : Z) : gmap string pyval * outcome :=
  let income := get current_allocations "monthly_take_home" in
  let updated := update_totals current_allocations in
  (updated,
   match prepare updated income scale with
   | inl e => Raises e
   | inr p => Returns (extract p (Solve (model_of p)))
   end).

(** ** What a model means *)

Fixpoint eval (Value : nat -> Z) (e : LinearExpr) : Z :=
  match e with
  | Var i => Value i
  | Const c => c
  | Plus a b => eval Value a + eval Value b
  | Minus a b => eval Value a - eval Value b
  | Times c a => c * eval Value a
  end.

Definition product (Value : nat -> Z) (operands : list nat) : Z :=
  foldr (fun i acc => Value i * acc) 1 operands.

Definition holds (Value : nat -> Z) (c : Constraint) : Prop :=
  match c with
  | Equals a b => eval Value a = eval Value b
  | AtLeast a b => eval Value b <= eval Value a
  | AtMost a b => eval Value a <= eval Value b
  | MultiplicationEquality target operands =>
      Value target = product Value operands
  end.

(** Every variable within its bounds; [i] is the position of the head. *)
Fixpoint within_bounds (Value : nat -> Z) (vars : list IntVar) (i : nat) : Prop :=
  match vars with
  | [] => True
  | v :: vars' =>
      (lb v <= Value i <= ub v) /\ within_bounds Value vars' (S i)
  end.

Fixpoint all_hold (Value : nat -> Z) (cs : list Constraint) : Prop :=
  match cs with
  | [] => True
  | c :: cs' => holds Value c /\ all_hold Value cs'
  end.

Definition satisfies (m : CpModel) (Value : nat -> Z) : Prop :=
  within_bounds Value (variables m) 0 /\ all_hold Value (constraints m).

(** The same as a check that runs. *)
Definition holds_b (Value : nat -> Z) (c : Constraint) : bool :=
  match c with
  | Equals a b => eval Value a =? eval Value b
  | AtLeast a b => eval Value b <=? eval Value a
  | AtMost a b => eval Value a <=? eval Value b
  | MultiplicationEquality target operands =>
      Value target =? product Value operands
  end.

Fixpoint within_bounds_b (Value : nat -> Z) (vars : list IntVar) (i : nat) : bool :=
  match vars with
  | [] => true
  | v :: vars' =>
      (lb v <=? Value i) && (Value i <=? ub v)
      && within_bounds_b Value vars' (S i)
  end.

Definition satisfies_b (m : CpModel) (Value : nat -> Z) : bool :=
  within_bounds_b Value (variables m) 0
  && forallb (holds_b Value) (constraints m).

(** What the function relies on when it reads the solver's answer for a
    model [m]: a solution status comes with values that satisfy [m], the
    status [OPTIMAL] with values of least objective, and the status
    [INFEASIBLE] only when nothing satisfies [m]. *)
Record SolverContract (m : CpModel) (r : CpSolverStatus * (nat -> Z)) : Prop := {
  solution_satisfies : is_solution r.1 = true -> satisfies m r.2;
  optimal_is_least :
    r.1 = OPTIMAL ->
    forall Value, satisfies m Value ->
                  eval r.2 (objective m) <= eval Value (objective m);
  infeasible_is_final :
    r.1 = INFEASIBLE -> forall Value, ~ satisfies m Value
}.

(** The search ran to its end (the function sets no time limit): the
    status is a proof of optimality or of infeasibility. *)
Definition SearchCompleted (r : CpSolverStatus * (nat -> Z)) : Prop :=
  r.1 = OPTIMAL \/ r.1 = INFEASIBLE.

(** The contract for the model that a call builds, when it builds one. *)
Definition SolverSoundFor (Solve : Solver)
    (current_allocations : gmap string pyval) (scale : Z) : Prop :=
  forall p,
    prepare (update_totals current_allocations)
            (get current_allocations "monthly_take_home") scale = inr p ->
    SolverContract (model_of p) (Solve (model_of p)).

Definition SolverCompleteFor (Solve : Solver)
    (current_allocations : gmap string pyval) (scale : Z) : Prop :=
  forall p,
    prepare (update_totals current_allocations)
            (get current_allocations "monthly_take_home") scale = inr p ->
    SearchCompleted (Solve (model_of p)).

(** ** Reading a satisfied model *)

(** The value of a category's allocation and squared-deviation variable. *)
Definition alloc_value (vs : Vars) (Value : nat -> Z) (cat : string) : Z :=
  Value (item (alloc_vars vs) cat).

Definition quad_value (vs : Vars) (Value : nat -> Z) (cat : string) : Z :=
  Value (item (quad_vars vs) cat).

(** What the three constraints and the four domains of one category say
    about its allocation [al] and its squared deviation [q]. *)
Record category_ok (income factor current_val al q : Z) : Prop := {
  ok_multiple : exists k, 0 <= k <= income / factor /\ al = factor * k;
  ok_range : 0 <= al <= income;
  ok_deviation : - income <= al - current_val <= income;
  ok_quad : q = (al - current_val) * (al - current_val);
  ok_quad_range : 0 <= q <= income ^ 2
}.

(** What the budget constraints say. *)
Record budget_ok (income savings_floor needs_ceiling wants_ceiling : Z)
    (al : string -> Z) : Prop := {
  ok_needs_sum :
    al "transport_expenditure" + al "food_expenditure"
    + al "housing_expenditure" + al "insurance_expenditure"
    + al "other_needs_expenditure" = al "total_needs";
  ok_income_sum :
    al "total_needs" + al "total_wants" + al "monthly_savings" = income;
  ok_savings_floor : savings_floor <= al "monthly_savings";
  ok_needs_ceiling : al "total_needs" <= needs_ceiling;
  ok_wants_ceiling : al "total_wants" <= wants_ceiling
}.

(** The weighted loss of an allocation [al] against the current values
    [cur] under the weights [w]. *)
Definition weighted_loss (w cur al : string -> Z) : Z :=
  foldl (fun acc cat => acc + w cat * (al cat - cur cat) ^ 2) 0 categories.

(** The step factor of a category, as the docstring gives it. *)
Definition step_factor (cat : string) : Z :=
  if decide (cat = "transport_expenditure") then 10 else 50.

(** ** The reference run of the notebook *)

(** The dictionary of the example under [if __name__ == "__main__"]. *)
Definition ref_input : gmap string pyval :=
  list_to_map
    [("age", PyInt 30); ("number_of_kids", PyInt 1);
     ("monthly_take_home", PyInt 4000);
     ("planning_to_buy_home", PyBool true);
     ("repaying_home_loans", PyBool false);
     ("supporting_aged_parents", PyBool false);
     ("owns_car", PyBool true);
     ("transport_expenditure", PyInt 100); ("food_expenditure", PyInt 100);
     ("housing_expenditure", PyInt 1000); ("insurance_expenditure", PyInt 100);
     ("other_needs_expenditure", PyInt 700); ("emergency_funds", PyInt 6000);
     ("investment_expenditure", PyInt 300); ("monthly_savings", PyInt 700)]%string.

(** A result dictionary filled in the order of the given list, as the
    comprehension over [categories] fills it. *)
Definition dict_of (l : list (string * Z)) : gmap string Z :=
  foldl (fun d kv => <[kv.1 := kv.2]> d) ∅ l.

(** The allocation that the notebook's output cell shows. *)
Definition ref_result : gmap string Z :=
  dict_of
    [("transport_expenditure", 100); ("food_expenditure", 100);
     ("housing_expenditure", 1000); ("insurance_expenditure", 100);
     ("other_needs_expenditure", 700); ("investment_expenditure", 300);
     ("monthly_savings", 800); ("total_needs", 2000);
     ("total_wants", 1200)]%string.

(** Values for the variables given as a list, in creation order: units,
    allocation, deviation and squared deviation of each category. *)
Definition values_of (l : list Z) : nat -> Z := fun i => nth i l 0.

Definition ref_values : list Z :=
  [10; 100; 0; 0;      2; 100; 0; 0;      20; 1000; 0; 0;
   2; 100; 0; 0;       14; 700; 0; 0;     6; 300; 0; 0;
   16; 800; 100; 10000;
   40; 2000; 0; 0;
   24; 1200; -100; 10000].

Definition is_inr {A B : Type} (x : A + B) : bool :=
  match x with
  | inr _ => true
  | inl _ => false
  end.

(** A solver that answers with the given status and values. *)
Definition answer (st : CpSolverStatus) (l : list Z) : Solver :=
  fun _ => (st, values_of l).

(** ** Rounding to 53 digits *)

(** The position of [m] between two multiples of [2 ^ k]. *)
Definition location_of (m k : Z) : location :=
  if m mod 2 ^ k =? 0 then loc_Exact
  else loc_Inexact (2 * (m mod 2 ^ k) ?= 2 ^ k).

(** The 53-digit mantissa of a product [x], as a multiple of
    [2 ^ (digits x - 53)]. *)
Definition rounded_mantissa (x : Z) : Z :=
  round_nearest_even (x / 2 ^ (Zdigits2 x - 53))
                     (location_of x (Zdigits2 x - 53)).

(** An income at which the product [0.2 * income] rounds up past the
    floor of a fifth of the income: [3 * 2 ^ 51]. *)
Definition large_income : Z := 6755399441055744.

(** ** Further inputs *)

(** The seven categories that the caller supplies. *)
Definition supplied_categories : list string :=
  ["transport_expenditure"; "food_expenditure"; "housing_expenditure";
   "insurance_expenditure"; "other_needs_expenditure";
   "investment_expenditure"; "monthly_savings"]%string.

(** No income and no spending. *)
Definition nothing_input : gmap string pyval :=
  {[ "monthly_take_home" := PyInt 0 ]}.

(** No income, and 100 spent on food. *)
Definition no_income_input : gmap string pyval :=
  <["food_expenditure" := PyInt 100]> {[ "monthly_take_home" := PyInt 0 ]}.

(** Needs and savings exceed the income by one: housing 2000, food 401,
    savings 600 on an income of 3000. *)
Definition overspent_input : gmap string pyval :=
  <["monthly_savings" := PyInt 600]>
    (<["food_expenditure" := PyInt 401]>
       (<["housing_expenditure" := PyInt 2000]>
          {[ "monthly_take_home" := PyInt 3000 ]})).

(** As above on an income of 1000, with an investment of 2500, more than
    twice the income. *)
Definition overinvested_input : gmap string pyval :=
  <["investment_expenditure" := PyInt 2500]>
    (<["monthly_savings" := PyInt 200]>
       (<["housing_expenditure" := PyInt 801]>
          {[ "monthly_take_home" := PyInt 1000 ]})).

(** The supplied entries and the income are non-negative. *)
Definition non_negative_input (ca : gmap string pyval) : Prop :=
  0 <= get ca "monthly_take_home"
  /\ forall cat, cat ∈ supplied_categories -> 0 <= get ca cat.

(** ** Inputs and assignments for further properties *)

(** The eight keys that the function reads from its input. *)
Definition recognised_keys : list string :=
  "monthly_take_home"%string :: supplied_categories.

(** The reference input without the keys that are not read, and with
    stale totals that the function overwrites. *)
Definition ref_budget_only : gmap string pyval :=
  list_to_map
    [("monthly_take_home", PyInt 4000);
     ("transport_expenditure", PyInt 100); ("food_expenditure", PyInt 100);
     ("housing_expenditure", PyInt 1000); ("insurance_expenditure", PyInt 100);
     ("other_needs_expenditure", PyInt 700);
     ("investment_expenditure", PyInt 300); ("monthly_savings", PyInt 700);
     ("total_needs", PyInt 1); ("total_wants", PyBool true)]%string.

(** Values for all the variables from the units [u] and the allocation
    [al] of every category: the deviation and its square are determined. *)
Definition layout_values (u al cur : string -> Z) : nat -> Z :=
  values_of
    (flat_map (fun cat => [u cat; al cat; al cat - cur cat;
                           (al cat - cur cat) * (al cat - cur cat)])
              categories).

(** [Value] with the four variables of investment_expenditure replaced
    by the ones of [k] units. *)
Definition with_investment_units (current_val k : Z) (Value : nat -> Z)
  : nat -> Z :=
  fun i =>
    if (i =? 20)%nat then k
    else if (i =? 21)%nat then 50 * k
    else if (i =? 22)%nat then 50 * k - current_val
    else if (i =? 23)%nat then (50 * k - current_val) * (50 * k - current_val)
    else Value i.


(** The allocation that puts the whole income into savings; the
    investment, which no budget constraint mentions, stays within the
    income of its current value. *)
Definition all_to_savings (income current_investment : Z) (cat : string) : Z :=
  if String.eqb cat "monthly_savings" then income
  else if String.eqb cat "investment_expenditure"
       then (if current_investment <=? income then 0 else income)
       else 0.

(** A returned allocation as the input of a next call. *)
Definition as_input (income : Z) (res : gmap string Z) : gmap string pyval :=
  <["monthly_take_home" := PyInt income]> (PyInt <$> res).

(** A solver that answers OPTIMAL with the current values themselves. *)
Definition unchanged_answer (current_allocations : gmap string pyval) : Solver :=
  let cur := get (update_totals current_allocations) in
  fun _ => (OPTIMAL,
            layout_values (fun cat => cur cat / item factors cat) cur cur).

(** An allocation [al] that meets every constraint of the model for the
    current values [cur]. *)
Definition admissible (income sf nc wc : Z) (cur al : string -> Z) : Prop :=
  Forall (fun cat =>
            category_ok income (item factors cat) (cur cat) (al cat)
              ((al cat - cur cat) * (al cat - cur cat)))
         categories
  /\ budget_ok income sf nc wc al.

(** ** Correctly rounded quotients *)

(** The position of a remainder [r] of a division by [d]. *)
Definition location_of_remainder (r d : Z) : location :=
  if r =? 0 then loc_Exact else loc_Inexact (2 * r ?= d).

(** The rational [a / b] rounded to the nearest integer, ties to the
    even one. *)
Definition round_half_even_div (a b : Z) : Z :=
  round_nearest_even (a / b) (location_of_remainder (a mod b) b).

(** A shift record that holds the quotient of [A] by [D] and the position
    of the remainder. *)
Definition represents (mrs : shr_record) (A D : Z) : Prop :=
  shr_m mrs = A / D
  /\ loc_of_shr_record mrs = location_of_remainder (A mod D) D.

(** * Properties *)

(** ** The float model on small cases *)

(** The three literals are the doubles nearest to 2/10, 1/2 and 3/10. *)
Example literals_are_nearest :
  PyFloat.truediv 2 10 = inr PyFloat.lit_0_2
  /\ PyFloat.truediv 1 2 = inr PyFloat.lit_0_5
  /\ PyFloat.truediv 3 10 = inr PyFloat.lit_0_3.
Proof. repeat split; vm_compute; reflexivity. Qed.

(** Conversion of an integer above [2 ^ 53] rounds, ties to even. *)
Example of_int_rounds :
  PyFloat.of_int (2 ^ 53 + 1) = PyFloat.of_int (2 ^ 53)
  /\ PyFloat.of_int (2 ^ 53 + 3) = PyFloat.of_int (2 ^ 53 + 4).
Proof. split; vm_compute; reflexivity. Qed.

(** Weights: 1000/101 rounds to 10, 1000/301 to 3, 1000/2001 to 0 and is
    raised to 1; 15/10 rounds to 2 and 25/10 to 2 (ties to even); a
    negative quotient is raised to 1. *)
Example weight_examples :
  weight 1000 100 = inr 10
  /\ weight 1000 300 = inr 3
  /\ weight 1000 2000 = inr 1
  /\ weight 15 9 = inr 2
  /\ weight 25 9 = inr 2
  /\ weight 1000 (-100) = inr 1.
Proof. repeat split; vm_compute; reflexivity. Qed.

(** The hard bounds of the reference income. *)
Example fractions_of_4000 :
  int_fraction PyFloat.lit_0_2 4000 = inr 800
  /\ int_fraction PyFloat.lit_0_5 4000 = inr 2000
  /\ int_fraction PyFloat.lit_0_3 4000 = inr 1200.
Proof. repeat split; vm_compute; reflexivity. Qed.

(** ** Checking a model *)


Lemma holds_b_spec Value c : holds_b Value c = true <-> holds Value c.
Proof.
  destruct c; simpl.
  - apply Z.eqb_eq.
  - apply Z.leb_le.
  - apply Z.leb_le.
  - apply Z.eqb_eq.
Qed.

Lemma within_bounds_b_spec Value vars :
  forall i, within_bounds_b Value vars i = true <-> within_bounds Value vars i.
Proof.
  induction vars as [|v vars IH]; intros i; simpl.
  - tauto.
  - rewrite !andb_true_iff, !Z.leb_le, IH. tauto.
Qed.

Lemma all_hold_b_spec Value cs :
  forallb (holds_b Value) cs = true <-> all_hold Value cs.
Proof.
  induction cs as [|c cs IH]; simpl.
  - tauto.
  - rewrite andb_true_iff, holds_b_spec, IH. tauto.
Qed.

Lemma satisfies_b_spec m Value :
  satisfies_b m Value = true <-> satisfies m Value.
Proof.
  unfold satisfies_b, satisfies.
  rewrite andb_true_iff, within_bounds_b_spec, all_hold_b_spec. tauto.
Qed.

(** ** The dictionaries keyed by [categories] *)

Lemma lookup_foldl_insert {V : Type} (f : string -> V) (l : list string) :
  forall (d : gmap string V) (cat : string),
    foldl (fun d cat => <[cat := f cat]> d) d l !! cat
    = if decide (cat ∈ l) then Some (f cat) else d !! cat.
Proof.
  induction l as [|x l IH]; intros d cat; simpl.
  - destruct (decide (cat ∈ [])) as [Hin|]; [inversion Hin | reflexivity].
  - rewrite IH.
    destruct (decide (cat ∈ l)) as [Hl|Hl].
    + rewrite decide_True by (right; exact Hl). reflexivity.
    + destruct (decide (x = cat)) as [->|Hne].
      * rewrite lookup_insert_eq, decide_True by left. reflexivity.
      * rewrite lookup_insert_ne by exact Hne.
        rewrite decide_False; [reflexivity|].
        intros Hin. apply elem_of_cons in Hin as [->|Hin]; tauto.
Qed.

Lemma item_lookup {V : Type} `{Inhabited V} (d : gmap string V) key v :
  d !! key = Some v -> item d key = v.
Proof. intros Hl. unfold item. exact (lookup_total_correct _ _ _ Hl). Qed.

Lemma factors_step_factor cat :
  cat ∈ categories -> item factors cat = step_factor cat.
Proof.
  intros Hin. unfold categories in Hin.
  repeat (apply elem_of_cons in Hin as [->|Hin]; [vm_compute; reflexivity|]).
  inversion Hin.
Qed.

(** ** The model that a call builds *)

(** Lookups in the variable dictionaries and in [factors] are closed
    terms once the builder has run: evaluate them. *)
Ltac eval_items :=
  repeat match goal with
  | |- context [@item nat ?i ?m ?k] =>
      let v := eval vm_compute in (@item nat i m k) in
      change (@item nat i m k) with v
  | |- context [item factors ?k] =>
      let v := eval vm_compute in (item factors k) in
      change (item factors k) with v
  end.

Ltac eval_items_in H :=
  repeat match type of H with
  | context [@item nat ?i ?m ?k] =>
      let v := eval vm_compute in (@item nat i m k) in
      change (@item nat i m k) with v in H
  | context [item factors ?k] =>
      let v := eval vm_compute in (item factors k) in
      change (item factors k) with v in H
  end.

(** Membership of a literal key in [categories]. *)
Ltac in_categories := unfold categories; repeat constructor.

(** The checks of [NewIntVar] and [Add] that stand in the way of the
    evaluation of [H : _ = inr _]: each one holds, or the builder had
    raised. *)
Ltac resolve_checks H :=
  repeat (lazy beta iota in H;
          match type of H with
          | context [if ?c then _ else _] =>
              match type of c with bool => idtac end;
              let E := fresh "Hfit" in
              destruct c eqn:E; [ | lazy beta iota in H; discriminate H ]
          end);
  lazy beta iota in H.

(** The same checks when they are known to hold: [tac] proves them. *)
Ltac pass_checks H tac :=
  repeat (lazy beta iota in H;
          match type of H with
          | context [if ?c then _ else _] =>
              match type of c with bool => idtac end;
              let E := fresh "Hfit" in
              destruct c eqn:E;
              [ clear E
              | exfalso;
                let E' := fresh in
                assert (E' : c = true) by tac;
                rewrite E' in E; discriminate E ]
          end);
  lazy beta iota in H.

(** Split the checks that hold into their parts. *)
Ltac split_checks :=
  repeat match goal with
         | E : _ && _ = true |- _ =>
             let E1 := fresh "Hfit" in
             let E2 := fresh "Hfit" in
             apply andb_prop in E as [E1 E2]
         end.

Ltac clear_checks :=
  repeat match goal with
         | E : @eq bool _ true |- _ => clear E
         end.

Ltac unfold_build H :=
  lazy beta iota zeta delta
    [build_model for_each add_category bind ret NewIntVar Add
     AddMultiplicationEquality Minimize raise_or categories needs_categories
     no_vars empty_model variables constraints objective unit_vars alloc_vars
     quad_vars weighted_quad_terms sum_exprs String.app fst snd
     List.length List.app List.map foldl Nat.add
     constraint_fits constants_fit] in H;
  eval_items_in H.

(** Run the builder on symbolic income, allocations and weights, for a
    builder that did not raise. *)
Ltac run_build H := unfold_build H; resolve_checks H; eval_items_in H.

Ltac category_facts :=
  split;
  [ match goal with
    | H : ?al = ?f * ?u |- exists k, _ /\ ?al = ?f * k =>
        exists u; split; [split; assumption | exact H]
    end
  | split; assumption
  | match goal with
    | Hd : ?d = ?al - ?c |- _ <= ?al - ?c <= _ =>
        rewrite <- Hd; split; assumption
    end
  | match goal with
    | Hd : ?d = ?al - ?c, Hq : ?q = ?d * (?d * 1) |- ?q = _ =>
        rewrite Hq, Hd; ring
    end
  | split; assumption ].

Lemma in_int64_spec (z : Z) :
  in_int64 z = true <-> - 2 ^ 63 <= z <= 2 ^ 63 - 1.
Proof.
  unfold in_int64. rewrite andb_true_iff, !Z.leb_le. reflexivity.
Qed.

Lemma build_model_inv ca ws income vs m :
  build_model ca ws income empty_model = inr (vs, m) ->
  exists sf nc wc,
    int_fraction PyFloat.lit_0_2 income = inr sf
    /\ int_fraction PyFloat.lit_0_5 income = inr nc
    /\ int_fraction PyFloat.lit_0_3 income = inr wc
    /\ forall Value,
        (satisfies m Value ->
         Forall (fun cat =>
                   category_ok income (item factors cat) (get ca cat)
                     (alloc_value vs Value cat) (quad_value vs Value cat))
                categories
         /\ budget_ok income sf nc wc (alloc_value vs Value))
        /\ eval Value (objective m)
           = foldl (fun acc cat => acc + quad_value vs Value cat * item ws cat)
                   0 categories.
Proof.
  intros H. run_build H.
  destruct (int_fraction PyFloat.lit_0_2 income) as [?|sf]; [discriminate H|].
  resolve_checks H.
  destruct (int_fraction PyFloat.lit_0_5 income) as [?|nc]; [discriminate H|].
  resolve_checks H.
  destruct (int_fraction PyFloat.lit_0_3 income) as [?|wc]; [discriminate H|].
  resolve_checks H.
  injection H as <- <-. clear_checks.
  exists sf, nc, wc.
  split; [reflexivity|]. split; [reflexivity|]. split; [reflexivity|].
  intros Value. split.
  - intros (Hb & Hc). simpl in Hb, Hc.
    decompose [and] Hb. decompose [and] Hc. clear Hb Hc.
    unfold alloc_value, quad_value, categories.
    lazy beta iota zeta delta [alloc_vars quad_vars].
    split.
    + repeat (constructor; [eval_items; category_facts|]). constructor.
    + split; eval_items; lia.
  - unfold quad_value, categories.
    lazy beta iota zeta delta [quad_vars objective eval foldl].
    eval_items. lia.
Qed.

(** When the variable loop does not raise, the bounds of the variables
    and the current values are 64-bit integers. *)
Lemma variable_loop_fits ca ws income r :
  for_each (add_category ca ws income) no_vars categories empty_model = inr r ->
  in_int64 (income ^ 2) = true
  /\ in_int64 income = true
  /\ forall cat, cat ∈ categories -> in_int64 (get ca cat) = true.
Proof.
  intros H. unfold_build H. resolve_checks H. split_checks.
  split; [assumption|]. split; [assumption|].
  intros cat Hin. unfold categories in Hin.
  repeat (apply elem_of_cons in Hin as [->|Hin]; [assumption|]).
  inversion Hin.
Qed.

(** The only exception of the variable loop is [TypeError]. *)
Lemma variable_loop_error ca ws income e :
  for_each (add_category ca ws income) no_vars categories empty_model = inl e ->
  e = TypeError.
Proof.
  intros H. unfold_build H.
  repeat (lazy beta iota in H;
          match type of H with
          | context [if ?c then _ else _] =>
              match type of c with bool => idtac end;
              let E := fresh "Hfit" in
              destruct c eqn:E;
              [ | lazy beta iota in H; injection H as <-; reflexivity ]
          end).
  lazy beta iota in H. discriminate H.
Qed.

Lemma build_model_loop ca ws income r :
  build_model ca ws income empty_model = inr r ->
  exists r0,
    for_each (add_category ca ws income) no_vars categories empty_model
    = inr r0.
Proof.
  unfold build_model at 1, bind at 1. 
  destruct (for_each (add_category ca ws income) no_vars categories empty_model)
    as [e|r0]; [intros H; discriminate H|].
  intros _. exists r0. reflexivity.
Qed.

Lemma build_model_fits ca ws income r :
  build_model ca ws income empty_model = inr r ->
  in_int64 (income ^ 2) = true
  /\ in_int64 income = true
  /\ forall cat, cat ∈ categories -> in_int64 (get ca cat) = true.
Proof.
  intros H. apply build_model_loop in H as (r0 & H).
  exact (variable_loop_fits _ _ _ _ H).
Qed.

(** An income whose square is a 64-bit integer is below [2 ^ 32]. *)
Lemma square_fits_income (income : Z) :
  in_int64 (income ^ 2) = true -> - 2 ^ 32 < income < 2 ^ 32.
Proof.
  intros H. apply in_int64_spec in H. rewrite Z.pow_2_r in H.
  change (2 ^ 63 - 1) with 9223372036854775807 in H.
  change (2 ^ 32) with 4294967296. nia.
Qed.

(** ** The weights *)

Lemma weight_positive scale current_val w :
  weight scale current_val = inr w -> 1 <= w.
Proof.
  unfold weight, bindE. intros H.
  destruct (PyFloat.truediv scale (current_val + 1)) as [?|x]; [discriminate|].
  destruct (PyFloat.round x) as [?|r]; [discriminate|].
  injection H as <-. lia.
Qed.

Lemma weights_loop ca scale (l : list string) :
  forall (acc : exn + gmap string Z) (ws : gmap string Z),
    foldl (fun acc cat =>
             (try weights := acc in
              try w := weight scale (get ca cat) in
              inr (<[cat := w]> weights))%exn) acc l = inr ws ->
    exists ws0, acc = inr ws0
      /\ (forall cat, cat ∈ l ->
                      exists w, weight scale (get ca cat) = inr w
                                /\ ws !! cat = Some w)
      /\ (forall cat, cat ∉ l -> ws !! cat = ws0 !! cat).
Proof.
  induction l as [|x l IH]; intros acc ws H; simpl in H.
  - exists ws. split; [exact H|]. split; [|reflexivity].
    intros cat Hin. inversion Hin.
  - apply IH in H as (ws1 & Hacc & Hin & Hout).
    destruct acc as [e|ws0]; [discriminate|]. simpl in Hacc.
    destruct (weight scale (get ca x)) as [e|w] eqn:Hw; [discriminate|].
    simpl in Hacc. injection Hacc as <-.
    exists ws0. split; [reflexivity|]. split.
    + intros cat Hcat.
      destruct (decide (cat ∈ l)) as [Hl|Hl]; [exact (Hin cat Hl)|].
      apply elem_of_cons in Hcat as [->|Hcat]; [|tauto].
      exists w. split; [exact Hw|].
      rewrite (Hout x Hl). apply lookup_insert_eq.
    + intros cat Hcat. apply not_elem_of_cons in Hcat as [Hne Hl].
      rewrite (Hout cat Hl). apply lookup_insert_ne. congruence.
Qed.

Lemma compute_weights_inv ca scale ws :
  compute_weights ca scale = inr ws ->
  forall cat, cat ∈ categories ->
              weight scale (get ca cat) = inr (item ws cat)
              /\ 1 <= item ws cat.
Proof.
  intros H cat Hin.
  apply weights_loop in H as (ws0 & _ & Hw & _).
  destruct (Hw cat Hin) as (w & Hw1 & Hw2).
  rewrite (item_lookup _ _ _ Hw2).
  split; [exact Hw1|]. exact (weight_positive _ _ _ Hw1).
Qed.

(** ** Floating-point arithmetic of the hard bounds *)

Lemma digits2_pos_size (p : positive) : digits2_pos p = Pos.size p.
Proof. induction p as [p IH|p IH|]; simpl; rewrite ?IH; reflexivity. Qed.

Lemma Zdigits2_log2 (p : positive) :
  Zdigits2 (Z.pos p) = Z.log2 (Z.pos p) + 1.
Proof.
  unfold Zdigits2. rewrite digits2_pos_size.
  destruct p as [p|p|]; cbn [Pos.size Z.log2]; lia.
Qed.

Lemma Zdigits2_bounds (p : positive) :
  2 ^ (Zdigits2 (Z.pos p) - 1) <= Z.pos p < 2 ^ Zdigits2 (Z.pos p).
Proof.
  rewrite Zdigits2_log2.
  replace (Z.log2 (Z.pos p) + 1 - 1) with (Z.log2 (Z.pos p)) by lia.
  rewrite Z.add_1_r. apply Z.log2_spec. lia.
Qed.

Lemma iter_pos_nat {A : Type} (f : A -> A) (p : positive) :
  forall x, SpecFloat.iter_pos f p x = Nat.iter (Pos.to_nat p) f x.
Proof.
  induction p as [p IH|p IH|]; intros x; cbn [SpecFloat.iter_pos].
  - rewrite !IH, Pos2Nat.inj_xI, <- Nat.iter_add, <- Nat.iter_succ_r.
    f_equal. lia.
  - rewrite !IH, Pos2Nat.inj_xO, <- Nat.iter_add. f_equal. lia.
  - reflexivity.
Qed.

Lemma shr_1_fields (m : Z) (r s : bool) :
  0 <= m ->
  shr_1 (Build_shr_record m r s)
  = Build_shr_record (m / 2) (Z.odd m) (orb r s).
Proof.
  intros Hm. rewrite <- Z.div2_div.
  destruct m as [|p|p]; [reflexivity| |lia].
  destruct p; reflexivity.
Qed.

Lemma shr_1_spec (m : Z) (k : Z) (mrs : shr_record) :
  0 <= m -> 0 <= k ->
  shr_m mrs = m / 2 ^ k ->
  loc_of_shr_record mrs = location_of m k ->
  shr_m (shr_1 mrs) = m / 2 ^ (k + 1)
  /\ loc_of_shr_record (shr_1 mrs) = location_of m (k + 1).
Proof.
  intros Hm Hk Hq Hl.
  assert (Hpow : 2 ^ (k + 1) = 2 * 2 ^ k) by (rewrite Z.pow_add_r by lia; lia).
  assert (Hp : 0 < 2 ^ k) by (apply Z.pow_pos_nonneg; lia).
  pose proof (Z.div_mod m (2 ^ k) ltac:(lia)) as Hdm.
  pose proof (Z.mod_pos_bound m (2 ^ k) Hp) as Hrk.
  assert (Hq0 : 0 <= m / 2 ^ k) by (apply Z.div_pos; lia).
  assert (Hdiv : m / 2 ^ (k + 1) = m / 2 ^ k / 2).
  { rewrite Hpow, Z.mul_comm, <- Z.div_div by lia. reflexivity. }
  unfold location_of in *. rewrite Hdiv. clear Hdiv.
  remember (m / 2 ^ k) as q eqn:Eq. remember (m mod 2 ^ k) as r eqn:Er.
  clear Eq Er.
  pose proof (Z.div_mod q 2 ltac:(lia)) as Hq2.
  pose proof (Zmod_odd q) as Hodd.
  assert (Hmod : m mod 2 ^ (k + 1) = (q mod 2) * 2 ^ k + r).
  { rewrite Hpow. symmetry. apply Z.mod_unique_pos with (q := q / 2).
    - destruct (Z.odd q); rewrite Hodd; lia.
    - remember (q / 2) as h. remember (q mod 2) as b. lia. }
  rewrite Hmod, Hpow, Hodd. clear Hmod Hq2 Hodd.
  destruct mrs as [m0 r0 s0]. cbn [shr_m] in Hq. subst m0.
  rewrite (shr_1_fields q r0 s0 Hq0). cbn [shr_m]. split; [reflexivity|].
  assert (Hs : orb r0 s0 = negb (r =? 0)).
  { destruct (r =? 0), r0, s0; cbn in Hl; try discriminate Hl; reflexivity. }
  rewrite Hs. clear Hs Hl.
  destruct (Z.odd q), (r =? 0) eqn:Hr0; cbn [loc_of_shr_record negb];
    [apply Z.eqb_eq in Hr0 | apply Z.eqb_neq in Hr0
     | apply Z.eqb_eq in Hr0 | apply Z.eqb_neq in Hr0].
  - replace (1 * 2 ^ k + r =? 0) with false by (symmetry; apply Z.eqb_neq; lia).
    f_equal. symmetry. apply Z.compare_eq_iff. lia.
  - replace (1 * 2 ^ k + r =? 0) with false by (symmetry; apply Z.eqb_neq; lia).
    f_equal. symmetry. apply Z.compare_gt_iff. lia.
  - replace (0 * 2 ^ k + r =? 0) with true by (symmetry; apply Z.eqb_eq; lia).
    reflexivity.
  - replace (0 * 2 ^ k + r =? 0) with false by (symmetry; apply Z.eqb_neq; lia).
    f_equal. symmetry. apply Z.compare_lt_iff. lia.
Qed.

Lemma iter_shr_1_spec (m : Z) (n : nat) :
  0 <= m ->
  shr_m (Nat.iter n shr_1 (Build_shr_record m false false)) = m / 2 ^ Z.of_nat n
  /\ loc_of_shr_record (Nat.iter n shr_1 (Build_shr_record m false false))
     = location_of m (Z.of_nat n).
Proof.
  intros Hm. induction n as [|n [IHm IHl]].
  - cbn [Nat.iter shr_m loc_of_shr_record]. unfold location_of.
    change (2 ^ Z.of_nat 0) with 1. rewrite Z.div_1_r, Z.mod_1_r. split; reflexivity.
  - rewrite Nat2Z.inj_succ, <- Z.add_1_r. cbn [Nat.iter].
    apply shr_1_spec; [exact Hm | lia | exact IHm | exact IHl].
Qed.

(** [shr] on an exact mantissa: the quotient and the position of what is
    shifted out. *)
Lemma shr_spec (m e n : Z) :
  0 <= m -> 0 <= n ->
  exists mrs,
    shr (Build_shr_record m false false) e n = (mrs, e + n)
    /\ shr_m mrs = m / 2 ^ n
    /\ loc_of_shr_record mrs = location_of m n.
Proof.
  intros Hm Hn. destruct n as [|p|p]; [| |lia].
  - exists (Build_shr_record m false false). cbn [shr shr_m loc_of_shr_record].
    unfold location_of. change (2 ^ 0) with 1.
    rewrite Z.add_0_r, Z.div_1_r, Z.mod_1_r. repeat split; reflexivity.
  - cbn [shr]. rewrite iter_pos_nat.
    destruct (iter_shr_1_spec m (Pos.to_nat p) Hm) as [H1 H2].
    rewrite positive_nat_Z in H1, H2.
    eexists. split; [reflexivity|]. split; assumption.
Qed.

Lemma Zdigits2_unique (z d : Z) :
  0 < d -> 2 ^ (d - 1) <= z < 2 ^ d -> Zdigits2 z = d.
Proof.
  intros Hd Hz.
  assert (0 < z) by (pose proof (Z.pow_pos_nonneg 2 (d - 1)); lia).
  destruct z as [|p|p]; try lia.
  rewrite Zdigits2_log2.
  rewrite (Z.log2_unique (Z.pos p) (d - 1)); [lia | lia |].
  replace (Z.succ (d - 1)) with d by lia. exact Hz.
Qed.

Lemma fexp_normal (e : Z) :
  -1074 <= e - 53 -> fexp 53 1024 e = e - 53.
Proof. intros H. unfold fexp, emin. lia. Qed.

Lemma round_nearest_even_bounds (q : Z) (l : location) :
  q <= round_nearest_even q l <= q + 1.
Proof.
  unfold round_nearest_even.
  destruct l as [|[ | | ]]; try destruct (Z.even q); lia.
Qed.

(** Rounding a positive mantissa of at least 53 digits to 53 digits, in
    the normal range: the result is the quotient [m1] by [2 ^ n] rounded
    to nearest, possibly renormalised after a carry. *)
Lemma binary_round_aux_pos (M : positive) (ex : Z) :
  let n := Zdigits2 (Z.pos M) - 53 in
  0 <= n -> -1074 <= ex + n -> ex + n < 971 ->
  exists (m1 : Z) (m' : positive) (e' : Z),
    binary_round_aux 53 1024 false (Z.pos M) ex loc_Exact
    = S754_finite false m' e'
    /\ m1 = round_nearest_even (Z.pos M / 2 ^ n) (location_of (Z.pos M) n)
    /\ ex + n <= e' <= ex + n + 1
    /\ (m1 < 2 ^ 53 -> e' = ex + n)
    /\ Z.pos m' * 2 ^ (e' - (ex + n)) = m1.
Proof.
  intros n Hn Hlo Hhi.
  pose proof (Zdigits2_bounds M) as Hd.
  assert (Hdn : Zdigits2 (Z.pos M) = n + 53) by (unfold n; lia).
  rewrite Hdn in Hd.
  assert (Hpn : 0 < 2 ^ n) by (apply Z.pow_pos_nonneg; lia).
  assert (Hq : 2 ^ 52 <= Z.pos M / 2 ^ n < 2 ^ 53).
  { replace (n + 53 - 1) with (52 + n) in Hd by lia.
    replace (n + 53) with (53 + n) in Hd by lia.
    rewrite !Z.pow_add_r in Hd by lia. split.
    - apply Z.div_le_lower_bound; lia.
    - apply Z.div_lt_upper_bound; lia. }
  unfold binary_round_aux, shr_fexp.
  rewrite Hdn, fexp_normal by lia.
  replace (n + 53 + ex - 53 - ex) with n by lia.
  cbn [shr_record_of_loc].
  destruct (shr_spec (Z.pos M) ex n ltac:(lia) Hn) as (mrs & -> & Hm & Hl).
  rewrite Hm, Hl.
  pose proof (round_nearest_even_bounds (Z.pos M / 2 ^ n)
                (location_of (Z.pos M) n)) as Hr.
  set (m1 := round_nearest_even (Z.pos M / 2 ^ n) (location_of (Z.pos M) n)) in *.
  exists m1.
  destruct (Z.eq_dec m1 (2 ^ 53)) as [Hc|Hc].
  - rewrite (Zdigits2_unique m1 54 ltac:(lia))
      by (rewrite Hc; split; [apply Z.le_refl | reflexivity]).
    rewrite fexp_normal by lia.
    replace (54 + (ex + n) - 53 - (ex + n)) with 1 by lia.
    destruct (shr_spec m1 (ex + n) 1 ltac:(lia) ltac:(lia)) as (mrs' & -> & Hm' & _).
    rewrite Hm', Hc. change (2 ^ 53 / 2 ^ 1) with (Z.pos (2 ^ 52)).
    replace (ex + n + 1 <=? 1024 - 53) with true by (symmetry; apply Z.leb_le; lia).
    exists (2 ^ 52)%positive, (ex + n + 1).
    split; [reflexivity|]. split; [reflexivity|]. split; [lia|].
    split; [lia|].
    replace (ex + n + 1 - (ex + n)) with 1 by lia. reflexivity.
  - rewrite (Zdigits2_unique m1 53 ltac:(lia)) by (change (53 - 1) with 52; lia).
    rewrite fexp_normal by lia.
    replace (53 + (ex + n) - 53 - (ex + n)) with 0 by lia.
    cbn [shr shr_m].
    destruct m1 as [|p|p] eqn:Hm1; [lia| |lia].
    replace (ex + n <=? 1024 - 53) with true by (symmetry; apply Z.leb_le; lia).
    exists p, (ex + n).
    split; [reflexivity|]. split; [reflexivity|]. split; [lia|].
    split; [reflexivity|].
    replace (ex + n - (ex + n)) with 0 by lia. lia.
Qed.

(** Scaling a mantissa by a power of two changes neither the quotient nor
    the position. *)
Lemma location_of_scale (x n s : Z) :
  0 <= x -> 0 <= n -> 0 <= s ->
  (x * 2 ^ s) / 2 ^ (n + s) = x / 2 ^ n
  /\ location_of (x * 2 ^ s) (n + s) = location_of x n.
Proof.
  intros Hx Hn Hs.
  assert (Hpn : 0 < 2 ^ n) by (apply Z.pow_pos_nonneg; lia).
  assert (Hps : 0 < 2 ^ s) by (apply Z.pow_pos_nonneg; lia).
  rewrite Z.pow_add_r by lia. split.
  - apply Z.div_mul_cancel_r; lia.
  - unfold location_of. rewrite Z.pow_add_r by lia.
    rewrite Z.mul_mod_distr_r by lia.
    pose proof (Z.mod_pos_bound x (2 ^ n) Hpn) as Hr.
    remember (x mod 2 ^ n) as r eqn:Er. clear Er.
    destruct (r =? 0) eqn:Hr0.
    + apply Z.eqb_eq in Hr0. subst r. reflexivity.
    + apply Z.eqb_neq in Hr0.
      replace (r * 2 ^ s =? 0) with false by (symmetry; apply Z.eqb_neq; nia).
      f_equal. rewrite Z.mul_assoc. symmetry. apply Zmult_compare_compat_r. lia.
Qed.

Lemma Zdigits2_scale (x s : Z) :
  0 < x -> 0 <= s -> Zdigits2 (x * 2 ^ s) = Zdigits2 x + s.
Proof.
  intros Hx Hs. destruct x as [|p|p]; try lia.
  pose proof (Zdigits2_bounds p) as Hd.
  assert (0 < Zdigits2 (Z.pos p)) by (rewrite Zdigits2_log2; pose proof (Z.log2_nonneg (Z.pos p)); lia).
  assert (Hps : 0 < 2 ^ s) by (apply Z.pow_pos_nonneg; lia).
  apply Zdigits2_unique; [lia|].
  replace (Zdigits2 (Z.pos p) + s - 1) with (Zdigits2 (Z.pos p) - 1 + s) by lia.
  rewrite !Z.pow_add_r by lia. nia.
Qed.

Lemma pos_iter_xO (m d : positive) :
  Z.pos (Pos.iter xO m d) = Z.pos m * 2 ^ Z.pos d.
Proof.
  induction d as [|d IH] using Pos.peano_ind.
  - cbn [Pos.iter]. rewrite Pos2Z.inj_xO. change (2 ^ 1) with 2. lia.
  - rewrite Pos.iter_succ, Pos2Z.inj_xO, IH, Pos2Z.inj_succ, Z.pow_succ_r by lia.
    ring.
Qed.

(** [float(z)] for [0 < z < 2 ^ 53]: the mantissa is [z] shifted to 53
    digits, nothing is rounded. *)
Lemma of_int_exact (z : Z) :
  0 < z < 2 ^ 53 ->
  exists m : positive,
    PyFloat.of_int z = inr (S754_finite false m (Zdigits2 z - 53))
    /\ Z.pos m = z * 2 ^ (53 - Zdigits2 z).
Proof.
  intros Hz. destruct z as [|p|p]; try lia.
  pose proof (Zdigits2_bounds p) as Hd.
  assert (Hd0 : 0 < Zdigits2 (Z.pos p))
    by (rewrite Zdigits2_log2; pose proof (Z.log2_nonneg (Z.pos p)); lia).
  assert (Hd53 : Zdigits2 (Z.pos p) <= 53).
  { destruct (Z_le_gt_dec (Zdigits2 (Z.pos p)) 53) as [|Hgt]; [assumption|].
    exfalso. assert (2 ^ 53 <= 2 ^ (Zdigits2 (Z.pos p) - 1))
      by (apply Z.pow_le_mono_r; lia). lia. }
  set (d := Zdigits2 (Z.pos p)) in *.
  set (s := 53 - d).
  assert (Hm : exists m : positive,
             shl_align p 0 (fexp 53 1024 (Z.pos (digits2_pos p) + 0))
             = (m, d - 53) /\ Z.pos m = Z.pos p * 2 ^ s).
  { change (Z.pos (digits2_pos p)) with d. rewrite Z.add_0_r.
    rewrite fexp_normal by lia. unfold shl_align.
    replace (d - 53 - 0) with (- s) by lia.
    destruct s as [|s'|s'] eqn:Hs; [| |lia].
    - exists p. split; [f_equal; lia|]. change (2 ^ 0) with 1. lia.
    - cbn [Z.opp]. exists (Pos.iter xO p s'). split; [reflexivity|].
      apply pos_iter_xO. }
  destruct Hm as (m & Hal & Hmz).
  unfold PyFloat.of_int, binary_normalize, binary_round, PyFloat.prec, PyFloat.emax.
  rewrite Hal.
  assert (Hdm : Zdigits2 (Z.pos m) = 53).
  { rewrite Hmz, Zdigits2_scale by lia. unfold s. fold d. lia. }
  destruct (binary_round_aux_pos m (d - 53)) as (m1 & m' & e' & Hbra & Hm1 & He & Hnc & Hval);
    rewrite ?Hdm; try lia.
  rewrite Hdm in *. change (53 - 53) with 0 in *.
  change (2 ^ 0) with 1 in Hm1. rewrite Z.div_1_r in Hm1.
  unfold location_of in Hm1. change (2 ^ 0) with 1 in Hm1.
  rewrite Z.mod_1_r in Hm1. cbn [Z.eqb round_nearest_even] in Hm1.
  pose proof (Zdigits2_bounds m) as Hmb. rewrite Hdm in Hmb.
  rewrite Hnc in * by lia.
  replace (d - 53 + 0 - (d - 53 + 0)) with 0 in Hval by lia.
  change (2 ^ 0) with 1 in Hval.
  assert (m' = m) as -> by lia.
  rewrite Hbra. exists m. split; [f_equal; f_equal; lia|]. exact Hmz.
Qed.

Lemma to_int_negative_exponent (m : positive) (e : Z) :
  e < 0 -> PyFloat.to_int (S754_finite false m e) = inr (Z.pos m / 2 ^ (- e)).
Proof. intros He. destruct e as [|p|p]; try lia. reflexivity. Qed.

(** [int(c * income)] for a positive literal [c = mc * 2 ^ (- E)] and
    [0 < income < 2 ^ 53], in integer arithmetic: the product
    [mc * income] is rounded to 53 digits and the result is truncated. *)
Lemma int_fraction_spec (mc : positive) (E income : Z) :
  2 ^ 52 <= Z.pos mc < 2 ^ 53 ->
  0 < income < 2 ^ 53 ->
  Zdigits2 (Z.pos mc * income) - 53 + 1 < E <= 1074 ->
  int_fraction (S754_finite false mc (- E)) income
  = inr (rounded_mantissa (Z.pos mc * income)
         / 2 ^ (E - (Zdigits2 (Z.pos mc * income) - 53))).
Proof.
  intros Hmc Hincome HE.
  destruct (of_int_exact income Hincome) as (mi & Hof & Hmi).
  unfold int_fraction, PyFloat.mul_int. rewrite Hof. cbn [bindE SFmul xorb].
  set (x := Z.pos mc * income) in *.
  set (d := Zdigits2 income) in *.
  assert (Hd : 0 < d <= 53).
  { destruct income as [|p|p]; try lia. pose proof (Zdigits2_bounds p) as Hb.
    fold d in Hb. split.
    - unfold d. rewrite Zdigits2_log2. pose proof (Z.log2_nonneg (Z.pos p)). lia.
    - destruct (Z_le_gt_dec d 53) as [|Hgt]; [assumption|]. exfalso.
      assert (2 ^ 53 <= 2 ^ (d - 1)) by (apply Z.pow_le_mono_r; lia). lia. }
  assert (Hx : 0 < x) by (unfold x; lia).
  assert (Hprod : Z.pos (mc * mi) = x * 2 ^ (53 - d)).
  { rewrite Pos2Z.inj_mul, Hmi. unfold x. ring. }
  assert (Hdx : 53 <= Zdigits2 x).
  { destruct x as [|px|px] eqn:Ex; try lia.
    pose proof (Zdigits2_bounds px) as Hb.
    destruct (Z_le_gt_dec 53 (Zdigits2 (Z.pos px))) as [|Hlt]; [assumption|].
    exfalso.
    assert (2 ^ Zdigits2 (Z.pos px) <= 2 ^ 52) by (apply Z.pow_le_mono_r; lia).
    assert (2 ^ 52 <= Z.pos px) by (rewrite <- Ex; unfold x; nia). lia. }
  set (n := Zdigits2 x - 53) in *.
  assert (HdM : Zdigits2 (Z.pos (mc * mi)) = n + (53 - d) + 53).
  { rewrite Hprod, Zdigits2_scale by lia. unfold n. lia. }
  destruct (binary_round_aux_pos (mc * mi) (- E + (d - 53)))
    as (m1 & m' & e' & Hbra & Hm1 & He & _ & Hval); rewrite ?HdM; try lia.
  rewrite HdM in *.
  replace (n + (53 - d) + 53 - 53) with (n + (53 - d)) in * by lia.
  replace (- E + (d - 53) + (n + (53 - d))) with (n - E) in * by lia.
  rewrite Hprod in Hm1.
  destruct (location_of_scale x n (53 - d)) as [Hq Hl]; try lia.
  rewrite Hq, Hl in Hm1.
  unfold PyFloat.prec, PyFloat.emax. rewrite Hbra.
  rewrite to_int_negative_exponent by lia.
  f_equal. unfold rounded_mantissa. fold n. rewrite <- Hm1, <- Hval.
  assert (Hj : e' - (n - E) = 0 \/ e' - (n - E) = 1) by lia.
  replace (E - n) with (- e' + (e' - (n - E))) by lia.
  destruct Hj as [-> | ->].
  - rewrite Z.add_0_r. change (2 ^ 0) with 1. rewrite Z.mul_1_r. reflexivity.
  - rewrite Z.pow_add_r by lia. symmetry. apply Z.div_mul_cancel_r.
    + apply Z.pow_nonzero; lia.
    + discriminate.
Qed.

Lemma mantissa_window (x : Z) :
  0 < x ->
  2 ^ 52 * 2 ^ (Zdigits2 x - 53) <= x < 2 ^ 53 * 2 ^ (Zdigits2 x - 53)
  \/ Zdigits2 x < 53.
Proof.
  intros Hx. destruct x as [|p|p]; try lia.
  destruct (Z_le_gt_dec 53 (Zdigits2 (Z.pos p))) as [Hd|Hd]; [left | right; lia].
  pose proof (Zdigits2_bounds p) as Hb.
  rewrite <- !Z.pow_add_r by lia.
  replace (52 + (Zdigits2 (Z.pos p) - 53)) with (Zdigits2 (Z.pos p) - 1) by lia.
  replace (53 + (Zdigits2 (Z.pos p) - 53)) with (Zdigits2 (Z.pos p)) by lia.
  exact Hb.
Qed.

(** Truncation after rounding is the floor [A] of the exact product as
    long as one unit of the mantissa fits below the next integer. *)
Lemma rounded_truncation_floor (x E A : Z) :
  0 < x ->
  0 <= Zdigits2 x - 53 <= E ->
  A * 2 ^ E <= x ->
  x + 2 ^ (Zdigits2 x - 53) < (A + 1) * 2 ^ E ->
  rounded_mantissa x / 2 ^ (E - (Zdigits2 x - 53)) = A.
Proof.
  intros Hx Hn Hlo Hhi. unfold rounded_mantissa.
  set (n := Zdigits2 x - 53) in *. set (t := E - n).
  assert (HE : 2 ^ E = 2 ^ n * 2 ^ t)
    by (rewrite <- Z.pow_add_r by lia; f_equal; lia).
  assert (Hpn : 0 < 2 ^ n) by (apply Z.pow_pos_nonneg; lia).
  assert (Hpt : 0 < 2 ^ t) by (apply Z.pow_pos_nonneg; lia).
  pose proof (round_nearest_even_bounds (x / 2 ^ n) (location_of x n)) as Hr.
  remember (round_nearest_even (x / 2 ^ n) (location_of x n)) as m1 eqn:Em. clear Em.
  pose proof (Z.div_mod x (2 ^ n) ltac:(lia)) as Hdm.
  pose proof (Z.mod_pos_bound x (2 ^ n) Hpn) as Hmod.
  remember (x / 2 ^ n) as q eqn:Eq. remember (x mod 2 ^ n) as r eqn:Er.
  clear Eq Er. rewrite HE in Hlo, Hhi.
  remember (2 ^ n) as P eqn:EP. remember (2 ^ t) as T eqn:ET. clear EP ET HE.
  assert (A * T <= q) by nia.
  assert (q + 1 < (A + 1) * T) by nia.
  symmetry. apply Z.div_unique with (r := m1 - A * T); lia.
Qed.

(** When the exact product lies less than half a unit of the mantissa
    below the integer [A], rounding reaches [A]. *)
Lemma rounded_truncation_up (x E A : Z) :
  0 < x ->
  0 <= Zdigits2 x - 53 <= E ->
  x < A * 2 ^ E ->
  2 * (A * 2 ^ E - x) < 2 ^ (Zdigits2 x - 53) ->
  rounded_mantissa x / 2 ^ (E - (Zdigits2 x - 53)) = A.
Proof.
  intros Hx Hn Hlt Hclose. unfold rounded_mantissa.
  set (n := Zdigits2 x - 53) in *. set (t := E - n).
  assert (HE : 2 ^ E = 2 ^ n * 2 ^ t)
    by (rewrite <- Z.pow_add_r by lia; f_equal; lia).
  assert (Hpn : 0 < 2 ^ n) by (apply Z.pow_pos_nonneg; lia).
  assert (Hpt : 0 < 2 ^ t) by (apply Z.pow_pos_nonneg; lia).
  rewrite HE in Hlt, Hclose.
  assert (Hq : x / 2 ^ n = A * 2 ^ t - 1).
  { symmetry. apply Z.div_unique with (r := 2 ^ n - (A * (2 ^ n * 2 ^ t) - x)); lia. }
  assert (Hr : x mod 2 ^ n = 2 ^ n - (A * (2 ^ n * 2 ^ t) - x)).
  { symmetry. apply Z.mod_unique with (q := A * 2 ^ t - 1); lia. }
  unfold location_of. rewrite Hq, Hr.
  replace (2 ^ n - (A * (2 ^ n * 2 ^ t) - x) =? 0) with false
    by (symmetry; apply Z.eqb_neq; lia).
  replace (2 * (2 ^ n - (A * (2 ^ n * 2 ^ t) - x)) ?= 2 ^ n) with Gt
    by (symmetry; apply Z.compare_gt_iff; lia).
  cbn [round_nearest_even].
  replace (A * 2 ^ t - 1 + 1) with (A * 2 ^ t) by lia.
  apply Z.div_mul. lia.
Qed.

Lemma product_digits (mc : positive) (income : Z) :
  2 ^ 52 <= Z.pos mc < 2 ^ 53 ->
  0 < income < 2 ^ 50 ->
  0 <= Zdigits2 (Z.pos mc * income) - 53 < 51
  /\ 2 ^ 52 * 2 ^ (Zdigits2 (Z.pos mc * income) - 53) <= Z.pos mc * income
  /\ Z.pos mc * income < 2 ^ 53 * 2 ^ (Zdigits2 (Z.pos mc * income) - 53)
  /\ 2 ^ (Zdigits2 (Z.pos mc * income) - 53) < 2 * income.
Proof.
  intros Hmc Hincome.
  assert (Hx : 0 < Z.pos mc * income) by lia.
  assert (Hx52 : 2 ^ 52 <= Z.pos mc * income) by nia.
  assert (Hx101 : Z.pos mc * income < 2 ^ 53 * income) by nia.
  destruct (Z.pos mc * income) as [|px|px] eqn:Ex; try lia.
  pose proof (Zdigits2_bounds px) as Hb.
  assert (Hd : 53 <= Zdigits2 (Z.pos px)).
  { destruct (Z_le_gt_dec 53 (Zdigits2 (Z.pos px))) as [|Hlt]; [assumption|].
    exfalso.
    assert (2 ^ Zdigits2 (Z.pos px) <= 2 ^ 52) by (apply Z.pow_le_mono_r; lia).
    lia. }
  destruct (mantissa_window (Z.pos px) ltac:(lia)) as [[Hlo Hhi]|]; [|lia].
  set (n := Zdigits2 (Z.pos px) - 53) in *.
  assert (Hpn : 0 < 2 ^ n) by (apply Z.pow_pos_nonneg; lia).
  assert (Hn2 : 2 ^ n < 2 * income) by lia.
  assert (Hn51 : n < 51).
  { apply (Z.pow_lt_mono_r_iff 2); [lia | lia |].
    change (2 ^ 51) with (2 * 2 ^ 50). lia. }
  repeat split; lia.
Qed.

(** [int(0.5 * income)] is the floor of half the income. *)
Lemma fraction_0_5 (income : Z) :
  0 <= income < 2 ^ 50 ->
  int_fraction PyFloat.lit_0_5 income = inr (income / 2).
Proof.
  intros Hincome.
  destruct (Z.eq_dec income 0) as [->|Hnz]; [vm_compute; reflexivity|].
  unfold PyFloat.lit_0_5.
  destruct (product_digits 4503599627370496 income) as (Hn & Hlo & Hhi & HP);
    [split; [apply Z.le_refl | reflexivity] | lia |].
  change (-53) with (- (53)).
  rewrite int_fraction_spec;
    [| split; [apply Z.le_refl | reflexivity]
     | change (2 ^ 53) with (8 * 2 ^ 50); lia | lia].
  f_equal. apply rounded_truncation_floor; try lia.
  - change (2 ^ 53) with (2 * 4503599627370496).
    pose proof (Z.div_mod income 2 ltac:(lia)).
    pose proof (Z.mod_pos_bound income 2 ltac:(lia)). lia.
  - change (2 ^ 53) with (2 * 4503599627370496).
    change (2 ^ 50) with 1125899906842624 in Hincome.
    pose proof (Z.div_mod income 2 ltac:(lia)).
    pose proof (Z.mod_pos_bound income 2 ltac:(lia)). lia.
Qed.

(** [int(0.2 * income)] is the floor of a fifth of the income. *)
Lemma fraction_0_2 (income : Z) :
  0 <= income < 2 ^ 50 ->
  int_fraction PyFloat.lit_0_2 income = inr (income / 5).
Proof.
  intros Hincome.
  destruct (Z.eq_dec income 0) as [->|Hnz]; [vm_compute; reflexivity|].
  unfold PyFloat.lit_0_2.
  destruct (product_digits 7205759403792794 income) as (Hn & Hlo & Hhi & HP);
    [split; [discriminate | reflexivity] | lia |].
  change (-55) with (- (55)).
  rewrite int_fraction_spec;
    [| split; [discriminate | reflexivity]
     | change (2 ^ 53) with (8 * 2 ^ 50); lia | lia].
  f_equal. apply rounded_truncation_floor; try lia.
  - change (2 ^ 55) with 36028797018963968.
    pose proof (Z.div_mod income 5 ltac:(lia)).
    pose proof (Z.mod_pos_bound income 5 ltac:(lia)). lia.
  - change (2 ^ 55) with 36028797018963968.
    change (2 ^ 50) with 1125899906842624 in Hincome.
    pose proof (Z.div_mod income 5 ltac:(lia)).
    pose proof (Z.mod_pos_bound income 5 ltac:(lia)). lia.
Qed.

(** [int(0.3 * income)] is the floor of three tenths of the income. *)
Lemma fraction_0_3 (income : Z) :
  0 <= income < 2 ^ 50 ->
  int_fraction PyFloat.lit_0_3 income = inr (3 * income / 10).
Proof.
  intros Hincome.
  destruct (Z.eq_dec income 0) as [->|Hnz]; [vm_compute; reflexivity|].
  unfold PyFloat.lit_0_3.
  destruct (product_digits 5404319552844595 income) as (Hn & Hlo & Hhi & HP);
    [split; [discriminate | reflexivity] | lia |].
  change (-54) with (- (54)).
  rewrite int_fraction_spec;
    [| split; [discriminate | reflexivity]
     | change (2 ^ 53) with (8 * 2 ^ 50); lia | lia].
  f_equal.
  change (2 ^ 50) with 1125899906842624 in Hincome.
  change (2 ^ 52) with 4503599627370496 in Hlo.
  change (2 ^ 53) with 9007199254740992 in Hhi.
  pose proof (Z.div_mod income 10 ltac:(lia)) as Hdm.
  pose proof (Z.mod_pos_bound income 10 ltac:(lia)) as Hrho.
  pose proof (Z.div_mod (3 * income) 10 ltac:(lia)) as Hdm3.
  pose proof (Z.mod_pos_bound (3 * income) 10 ltac:(lia)) as Hsig.
  destruct (Z.eq_dec (income mod 10) 0) as [Hz|Hz].
  - apply rounded_truncation_up; try lia;
      change (2 ^ 54) with 18014398509481984; lia.
  - apply rounded_truncation_floor; try lia;
      change (2 ^ 54) with 18014398509481984; lia.
Qed.

(** ** A returned solution *)

Lemma prepare_inv ca income scale p :
  prepare ca income scale = inr p ->
  compute_weights ca scale = inr (weights_of p)
  /\ build_model ca (weights_of p) income empty_model
     = inr (vars_of p, model_of p).
Proof.
  unfold prepare, bindE. intros H.
  destruct (compute_weights ca scale) as [?|ws]; [discriminate|].
  destruct (build_model ca ws income empty_model) as [?|[vs m]] eqn:Hb;
    [discriminate|].
  injection H as <-. simpl. split; [reflexivity | exact Hb].
Qed.

Lemma optimize_inv Solve ca scale ca' r :
  optimize Solve ca scale = (ca', Returns r) ->
  exists p,
    prepare (update_totals ca) (get ca "monthly_take_home") scale = inr p
    /\ r = extract p (Solve (model_of p)).
Proof.
  unfold optimize. intros H. injection H as _ H.
  destruct (prepare (update_totals ca) (get ca "monthly_take_home") scale)
    as [?|p]; [discriminate|].
  injection H as <-. exists p. split; reflexivity.
Qed.

Lemma extract_inv p st Value res loss :
  extract p (st, Value) = Some (res, loss) ->
  is_solution st = true
  /\ (forall cat, cat ∈ categories ->
                  res !! cat = Some (alloc_value (vars_of p) Value cat))
  /\ (forall cat, cat ∉ categories -> res !! cat = None)
  /\ loss = foldl (fun acc cat =>
                     acc + quad_value (vars_of p) Value cat
                           * item (weights_of p) cat) 0 categories.
Proof.
  unfold extract. destruct (is_solution st); [|discriminate].
  intros H. injection H as <- <-.
  split; [reflexivity|]. split; [|split; [|reflexivity]].
  - intros cat Hin.
    etransitivity;
      [exact (lookup_foldl_insert
                (fun cat => Value (item (alloc_vars (vars_of p)) cat))
                categories ∅ cat)|].
    rewrite decide_True by exact Hin. reflexivity.
  - intros cat Hin.
    etransitivity;
      [exact (lookup_foldl_insert
                (fun cat => Value (item (alloc_vars (vars_of p)) cat))
                categories ∅ cat)|].
    rewrite decide_False by exact Hin. apply lookup_empty.
Qed.

(** Everything a returned pair is known to satisfy when the solver keeps
    its contract: [al] and [q] are the values of the allocation and of the
    squared-deviation variables. *)
Lemma returned_solution Solve ca scale ca' res loss :
  SolverSoundFor Solve ca scale ->
  optimize Solve ca scale = (ca', Returns (Some (res, loss))) ->
  exists ws sf nc wc (al q : string -> Z),
    compute_weights (update_totals ca) scale = inr ws
    /\ int_fraction PyFloat.lit_0_2 (get ca "monthly_take_home") = inr sf
    /\ int_fraction PyFloat.lit_0_5 (get ca "monthly_take_home") = inr nc
    /\ int_fraction PyFloat.lit_0_3 (get ca "monthly_take_home") = inr wc
    /\ (forall cat, cat ∈ categories -> res !! cat = Some (al cat))
    /\ (forall cat, cat ∉ categories -> res !! cat = None)
    /\ Forall (fun cat =>
                 category_ok (get ca "monthly_take_home") (item factors cat)
                   (get (update_totals ca) cat) (al cat) (q cat))
              categories
    /\ budget_ok (get ca "monthly_take_home") sf nc wc al
    /\ loss = foldl (fun acc cat => acc + q cat * item ws cat) 0 categories.
Proof.
  intros Hsound H.
  apply optimize_inv in H as (p & Hp & Hr).
  specialize (Hsound p Hp).
  destruct (Solve (model_of p)) as [st Value] eqn:HS.
  symmetry in Hr. apply extract_inv in Hr as (Hst & Hres & Hnone & Hloss).
  apply prepare_inv in Hp as (Hws & Hb).
  apply build_model_inv in Hb as (sf & nc & wc & Hsf & Hnc & Hwc & Hm).
  destruct (Hm Value) as (Hsat & _).
  destruct (Hsat (solution_satisfies _ _ Hsound Hst)) as (Hcat & Hbud).
  exists (weights_of p), sf, nc, wc,
    (alloc_value (vars_of p) Value), (quad_value (vars_of p) Value).
  repeat (split; [assumption|]). exact Hloss.
Qed.

Lemma categories_cases (P : string -> Prop) :
  Forall P categories -> forall cat, cat ∈ categories -> P cat.
Proof. intros H cat Hin. exact (proj1 (Forall_forall P categories) H cat Hin). Qed.

(** C1: on every input on which the function returns a solution, each
    category's allocation is a non-negative integer multiple of its step
    factor (10 for transport_expenditure, 50 for the others) and lies
    between 0 and the income. *)
Theorem C1_allocations_are_step_multiples Solve ca scale ca' res loss :
  SolverSoundFor Solve ca scale ->
  optimize Solve ca scale = (ca', Returns (Some (res, loss))) ->
  forall cat, cat ∈ categories ->
    exists v k, res !! cat = Some v
                /\ 0 <= k
                /\ v = k * step_factor cat
                /\ 0 <= v <= get ca "monthly_take_home".
Proof.
  intros Hsound H cat Hin.
  destruct (returned_solution _ _ _ _ _ _ Hsound H)
    as (ws & sf & nc & wc & al & q & _ & _ & _ & _ & Hres & _ & Hcat & _).
  pose proof (categories_cases _ Hcat cat Hin) as [(k & Hk & Hal) Hr _ _ _].
  exists (al cat), k.
  rewrite <- (factors_step_factor cat Hin).
  split; [exact (Hres cat Hin)|]. split; [lia|]. split; [lia | exact Hr].
Qed.

(** C2: a returned allocation satisfies both accounting identities: the
    five needs categories add up to total_needs, and total_needs,
    total_wants and monthly_savings add up to the income. *)
Theorem C2_accounting_identities Solve ca scale ca' res loss :
  SolverSoundFor Solve ca scale ->
  optimize Solve ca scale = (ca', Returns (Some (res, loss))) ->
  exists transport food housing insurance other_needs savings needs wants,
    res !! "transport_expenditure" = Some transport
    /\ res !! "food_expenditure" = Some food
    /\ res !! "housing_expenditure" = Some housing
    /\ res !! "insurance_expenditure" = Some insurance
    /\ res !! "other_needs_expenditure" = Some other_needs
    /\ res !! "monthly_savings" = Some savings
    /\ res !! "total_needs" = Some needs
    /\ res !! "total_wants" = Some wants
    /\ transport + food + housing + insurance + other_needs = needs
    /\ needs + wants + savings = get ca "monthly_take_home".
Proof.
  intros Hsound H.
  destruct (returned_solution _ _ _ _ _ _ Hsound H)
    as (ws & sf & nc & wc & al & q & _ & _ & _ & _ & Hres & _ & _ & Hbud & _).
  destruct Hbud as [Hneeds Hincome _ _ _].
  exists (al "transport_expenditure"), (al "food_expenditure"),
    (al "housing_expenditure"), (al "insurance_expenditure"),
    (al "other_needs_expenditure"), (al "monthly_savings"),
    (al "total_needs"), (al "total_wants").
  repeat (split; [apply Hres; in_categories|]).
  split; [exact Hneeds | exact Hincome].
Qed.

(** At the income 6755399441055744 the bare product 0.2 * income rounds
    up to the next integer, one more than the floor of a fifth of the
    income.  A call never computes it there: the square of the income is
    no 64-bit integer, and the variable loop raises. *)
Lemma large_income_raises ca ws :
  int_fraction PyFloat.lit_0_2 large_income = inr 1351079888211149
  /\ large_income / 5 = 1351079888211148
  /\ for_each (add_category ca ws large_income) no_vars categories empty_model
     = inl TypeError.
Proof.
  split; [vm_compute; reflexivity|]. split; [vm_compute; reflexivity|].
  destruct (for_each (add_category ca ws large_income) no_vars categories
              empty_model) as [e|r] eqn:Hloop.
  - rewrite (variable_loop_error _ _ _ _ Hloop). reflexivity.
  - exfalso. destruct (variable_loop_fits _ _ _ _ Hloop) as (Hs & _).
    vm_compute in Hs. discriminate Hs.
Qed.

(** The hard bounds of an income whose square is a 64-bit integer. *)
Lemma fractions_of_fitting_income (income : Z) :
  0 <= income -> in_int64 (income ^ 2) = true ->
  int_fraction PyFloat.lit_0_2 income = inr (income / 5)
  /\ int_fraction PyFloat.lit_0_5 income = inr (income / 2)
  /\ int_fraction PyFloat.lit_0_3 income = inr (3 * income / 10).
Proof.
  intros Hpos Hs. apply square_fits_income in Hs.
  assert (H32 : 2 ^ 32 < 2 ^ 50) by (apply Z.pow_lt_mono_r; lia).
  assert (Hincome : 0 <= income < 2 ^ 50) by lia.
  split; [exact (fraction_0_2 income Hincome)|].
  split; [exact (fraction_0_5 income Hincome)
         | exact (fraction_0_3 income Hincome)].
Qed.

(** C3: on every income that is not negative on which the call gets as
    far as the hard bounds (the variable loop has raised nothing), the
    three constants int(0.2 * income), int(0.5 * income) and
    int(0.3 * income) are the floors of a fifth, a half and three tenths
    of the income; and every returned solution has monthly_savings at
    least the first, total_needs at most the second and total_wants at
    most the third. *)
Theorem C3_hard_bounds_are_exact_floors :
  (forall ca ws income r,
      0 <= income ->
      for_each (add_category ca ws income) no_vars categories empty_model
      = inr r ->
      int_fraction PyFloat.lit_0_2 income = inr (income / 5)
      /\ int_fraction PyFloat.lit_0_5 income = inr (income / 2)
      /\ int_fraction PyFloat.lit_0_3 income = inr (3 * income / 10))
  /\ forall Solve ca scale ca' res loss,
      SolverSoundFor Solve ca scale ->
      optimize Solve ca scale = (ca', Returns (Some (res, loss))) ->
      exists savings needs wants,
        res !! "monthly_savings" = Some savings
        /\ res !! "total_needs" = Some needs
        /\ res !! "total_wants" = Some wants
        /\ get ca "monthly_take_home" / 5 <= savings
        /\ needs <= get ca "monthly_take_home" / 2
        /\ wants <= 3 * get ca "monthly_take_home" / 10.
Proof.
  split.
  - intros ca ws income r Hpos Hloop.
    destruct (variable_loop_fits _ _ _ _ Hloop) as (Hs & _).
    exact (fractions_of_fitting_income income Hpos Hs).
  - intros Solve ca scale ca' res loss Hsound H.
    destruct (returned_solution _ _ _ _ _ _ Hsound H)
      as (ws & sf & nc & wc & al & q & _ & Hsf & Hnc & Hwc & Hres & _
          & Hcat & Hbud & _).
    apply optimize_inv in H as (p & Hp & _).
    apply prepare_inv in Hp as (_ & Hb).
    destruct (build_model_fits _ _ _ _ Hb) as (Hs & _).
    remember (get ca "monthly_take_home") as income eqn:Ei.
    assert (Hpos : 0 <= income).
    { pose proof (categories_cases _ Hcat "total_needs"%string
                    ltac:(in_categories)) as [_ Hr _ _ _].
      lia. }
    destruct (fractions_of_fitting_income income Hpos Hs) as (H2 & H5 & H3).
    assert (sf = income / 5) as -> by congruence.
    assert (nc = income / 2) as -> by congruence.
    assert (wc = 3 * income / 10) as -> by congruence.
    destruct Hbud as [_ _ Hsav Hn Hw].
    exists (al "monthly_savings"), (al "total_needs"), (al "total_wants").
    repeat (split; [apply Hres; in_categories|]).
    split; [exact Hsav|]. split; [exact Hn | exact Hw].
Qed.

Lemma foldl_sum_ext (f g : string -> Z) (l : list string) :
  (forall cat, cat ∈ l -> f cat = g cat) ->
  forall acc, foldl (fun acc cat => acc + f cat) acc l
              = foldl (fun acc cat => acc + g cat) acc l.
Proof.
  induction l as [|x l IH]; intros Hfg acc; simpl; [reflexivity|].
  rewrite (Hfg x) by left. apply IH. intros cat Hin. apply Hfg. right. exact Hin.
Qed.


Lemma extract_dom p st Value res loss :
  extract p (st, Value) = Some (res, loss) ->
  dom res = list_to_set categories.
Proof.
  intros H. apply extract_inv in H as (_ & Hin & Hout & _).
  apply set_eq. intros cat.
  rewrite elem_of_dom, elem_of_list_to_set.
  destruct (decide (cat ∈ categories)) as [Hc|Hc].
  - rewrite (Hin cat Hc). split; [intros _; exact Hc | intros _; eexists; reflexivity].
  - rewrite (Hout cat Hc). split; [intros [? ?]; discriminate | tauto].
Qed.

(** C5: once the model is built, the answer has one of two shapes.  On
    the status OPTIMAL or FEASIBLE the function returns a dictionary over
    exactly the nine categories together with an integer loss; on every
    other status (INFEASIBLE among them) it returns (None, None), and it
    does not raise. *)
Theorem C5_two_return_shapes Solve ca scale p :
  prepare (update_totals ca) (get ca "monthly_take_home") scale = inr p ->
  ((Solve (model_of p)).1 = OPTIMAL \/ (Solve (model_of p)).1 = FEASIBLE ->
   exists res loss,
     (optimize Solve ca scale).2 = Returns (Some (res, loss))
     /\ dom res = list_to_set categories)
  /\ ((Solve (model_of p)).1 <> OPTIMAL ->
      (Solve (model_of p)).1 <> FEASIBLE ->
      (optimize Solve ca scale).2 = Returns None).
Proof.
  intros Hp. unfold optimize. cbv zeta. cbn [snd]. rewrite Hp.
  destruct (Solve (model_of p)) as [st Value]. cbn [fst]. split.
  - intros Hst.
    destruct (extract p (st, Value)) as [[res loss]|] eqn:He.
    + exists res, loss. split; [reflexivity|]. exact (extract_dom _ _ _ _ _ He).
    + unfold extract in He. destruct Hst as [-> | ->]; discriminate.
  - intros Hno Hnf. unfold extract.
    destruct st; cbn [is_solution]; try reflexivity; congruence.
Qed.

(** ** The reference run *)

Lemma is_inr_true {A B : Type} (x : A + B) :
  is_inr x = true -> exists b, x = inr b.
Proof. destruct x; [discriminate|]. intros _. eexists; reflexivity. Qed.

Lemma square_lower (d q : Z) :
  q = d * (d * 1) -> 100 <= d \/ d <= -100 -> 10000 <= q.
Proof. intros -> [H|H]; nia. Qed.

Lemma square_zero (d q : Z) : q = d * (d * 1) -> q = 0 -> d = 0.
Proof. intros -> H. nia. Qed.

Lemma square_10000 (d q : Z) :
  q = d * (d * 1) -> q = 10000 -> d = 100 \/ d = -100.
Proof. intros -> H. assert (-100 <= d <= 100) by nia. nia. Qed.

Lemma ref_income : get ref_input "monthly_take_home" = 4000.
Proof. vm_compute. reflexivity. Qed.

Lemma ref_prepare_ok :
  exists p, prepare (update_totals ref_input) 4000 1000 = inr p.
Proof. apply is_inr_true. vm_compute. reflexivity. Qed.

(** The weights of the reference run: 10, 10, 1, 10, 1, 3, 1, 1, 1. *)
Lemma ref_weights ws :
  compute_weights (update_totals ref_input) 1000 = inr ws ->
  map (item ws) categories = [10; 10; 1; 10; 1; 3; 1; 1; 1].
Proof.
  intros H. pose proof (compute_weights_inv _ _ _ H) as Hw.
  unfold categories. cbn [map].
  repeat match goal with
  | |- item ws ?cat :: _ = _ =>
      let E := fresh in
      pose proof (Hw cat ltac:(in_categories)) as [E _];
      match type of E with
      | ?lhs = _ =>
          let v := eval vm_compute in lhs in
          let E2 := fresh in
          assert (lhs = v) as E2 by (vm_compute; reflexivity);
          rewrite E2 in E; clear E2
      end;
      injection E as <-; apply (f_equal2 cons eq_refl)
  end.
  reflexivity.
Qed.

Ltac eval_gets :=
  repeat match goal with
  | |- context [get (update_totals ref_input) ?k] =>
      let v := eval vm_compute in (get (update_totals ref_input) k) in
      let E := fresh in
      assert (get (update_totals ref_input) k = v) as E
        by (vm_compute; reflexivity);
      rewrite E; clear E
  end.

(** The model of the reference run: the values [ref_values] satisfy it
    with objective 20000, nothing that satisfies it has a smaller
    objective, and the objective 20000 is reached by the allocation of
    the notebook's output only. *)
Lemma ref_model p :
  prepare (update_totals ref_input) 4000 1000 = inr p ->
  (satisfies (model_of p) (values_of ref_values)
   /\ eval (values_of ref_values) (objective (model_of p)) = 20000)
  /\ forall Value,
      satisfies (model_of p) Value ->
      20000 <= eval Value (objective (model_of p))
      /\ (eval Value (objective (model_of p)) <= 20000 ->
          forall st, is_solution st = true ->
                     extract p (st, Value) = Some (ref_result, 20000)).
Proof.
  intros Hp. apply prepare_inv in Hp as (Hws & Hb).
  destruct p as [ws vs m]. cbn [weights_of vars_of model_of] in *.
  apply ref_weights in Hws.
  unfold categories in Hws. cbn [map] in Hws.
  injection Hws as W1 W2 W3 W4 W5 W6 W7 W8 W9.
  run_build Hb.
  replace (int_fraction PyFloat.lit_0_2 4000) with (@inr exn Z 800) in Hb
    by (vm_compute; reflexivity).
  replace (int_fraction PyFloat.lit_0_5 4000) with (@inr exn Z 2000) in Hb
    by (vm_compute; reflexivity).
  replace (int_fraction PyFloat.lit_0_3 4000) with (@inr exn Z 1200) in Hb
    by (vm_compute; reflexivity).
  injection Hb as <- <-.
  eval_gets.
  rewrite ?W1, ?W2, ?W3, ?W4, ?W5, ?W6, ?W7, ?W8, ?W9.
  split.
  - split.
    + apply satisfies_b_spec. vm_compute. reflexivity.
    + vm_compute. reflexivity.
  - intros Value (Hb & Hc). simpl in Hb, Hc. cbn [objective eval].
    decompose [and] Hb. decompose [and] Hc. clear Hb Hc.
    assert (10000 <= Value 27%nat)
      by (apply (square_lower (Value 26%nat)); [assumption|lia]).
    assert (10000 <= Value 35%nat)
      by (apply (square_lower (Value 34%nat)); [assumption|lia]).
    split; [lia|].
    intros Hobj st Hst.
    unfold extract. rewrite Hst.
    cbn [vars_of weights_of alloc_vars quad_vars].
    unfold categories. cbn [foldl]. eval_items.
    rewrite ?W1, ?W2, ?W3, ?W4, ?W5, ?W6, ?W7, ?W8, ?W9.
    assert (Value 26%nat = 100 \/ Value 26%nat = -100)
      by (apply (square_10000 _ (Value 27%nat)); [assumption|lia]).
    assert (Value 34%nat = 100 \/ Value 34%nat = -100)
      by (apply (square_10000 _ (Value 35%nat)); [assumption|lia]).
    assert (Value 2%nat = 0)
      by (apply (square_zero _ (Value 3%nat)); [assumption|lia]).
    assert (Value 6%nat = 0)
      by (apply (square_zero _ (Value 7%nat)); [assumption|lia]).
    assert (Value 10%nat = 0)
      by (apply (square_zero _ (Value 11%nat)); [assumption|lia]).
    assert (Value 14%nat = 0)
      by (apply (square_zero _ (Value 15%nat)); [assumption|lia]).
    assert (Value 18%nat = 0)
      by (apply (square_zero _ (Value 19%nat)); [assumption|lia]).
    assert (Value 22%nat = 0)
      by (apply (square_zero _ (Value 23%nat)); [assumption|lia]).
    assert (Value 30%nat = 0)
      by (apply (square_zero _ (Value 31%nat)); [assumption|lia]).
    replace (Value 1%nat) with 100 by lia.
    replace (Value 5%nat) with 100 by lia.
    replace (Value 9%nat) with 1000 by lia.
    replace (Value 13%nat) with 100 by lia.
    replace (Value 17%nat) with 700 by lia.
    replace (Value 21%nat) with 300 by lia.
    replace (Value 25%nat) with 800 by lia.
    replace (Value 29%nat) with 2000 by lia.
    replace (Value 33%nat) with 1200 by lia.
    replace (Value 3%nat) with 0 by lia.
    replace (Value 7%nat) with 0 by lia.
    replace (Value 11%nat) with 0 by lia.
    replace (Value 15%nat) with 0 by lia.
    replace (Value 19%nat) with 0 by lia.
    replace (Value 23%nat) with 0 by lia.
    replace (Value 27%nat) with 10000 by lia.
    replace (Value 31%nat) with 0 by lia.
    replace (Value 35%nat) with 10000 by lia.
    reflexivity.
Qed.

Lemma ref_answer_sound st :
  is_solution st = true ->
  SolverSoundFor (answer st ref_values) ref_input 1000.
Proof.
  intros Hst p Hp. rewrite ref_income in Hp.
  destruct (ref_model p Hp) as ((Hsat & Hobj) & Hmin).
  split; unfold answer; cbn [fst snd].
  - intros _. exact Hsat.
  - intros _ Value HV. rewrite Hobj. exact (proj1 (Hmin Value HV)).
  - intros ->. discriminate Hst.
Qed.

Lemma ref_answer_run st :
  is_solution st = true ->
  optimize (answer st ref_values) ref_input 1000
  = (update_totals ref_input, Returns (Some (ref_result, 20000))).
Proof.
  intros Hst. unfold optimize. cbv zeta. rewrite ref_income.
  destruct ref_prepare_ok as (p & Hp). rewrite Hp.
  destruct (ref_model p Hp) as ((Hsat & Hobj) & Hmin).
  unfold answer.
  rewrite (proj2 (Hmin _ Hsat) ltac:(lia) st Hst). reflexivity.
Qed.

(** C6: on the reference input of the notebook the function returns the
    allocation of the recorded output, with monthly_savings = 800,
    total_needs = 2000 and total_wants = 1200, and the loss 20000.  The
    solver is taken to keep its contract and to finish its search. *)
Theorem C6_reference_run Solve :
  SolverSoundFor Solve ref_input 1000 ->
  SolverCompleteFor Solve ref_input 1000 ->
  optimize Solve ref_input 1000
  = (update_totals ref_input, Returns (Some (ref_result, 20000)))
  /\ ref_result !! "monthly_savings" = Some 800
  /\ ref_result !! "total_needs" = Some 2000
  /\ ref_result !! "total_wants" = Some 1200.
Proof.
  intros Hsound Hcomplete. split; [|vm_compute; repeat split; reflexivity].
  unfold optimize. cbv zeta. rewrite ref_income.
  destruct ref_prepare_ok as (p & Hp). rewrite Hp.
  rewrite <- ref_income in Hp.
  specialize (Hsound p Hp). specialize (Hcomplete p Hp).
  rewrite ref_income in Hp.
  destruct (ref_model p Hp) as ((Hsat & Hobj) & Hmin).
  destruct (Solve (model_of p)) as [st Value].
  destruct Hcomplete as [Hst|Hst]; cbn [fst] in Hst; subst st.
  - pose proof (solution_satisfies _ _ Hsound eq_refl) as HV.
    pose proof (optimal_is_least _ _ Hsound eq_refl _ Hsat) as Hle.
    cbn [fst snd] in HV, Hle. rewrite Hobj in Hle.
    rewrite (proj2 (Hmin Value HV) Hle OPTIMAL eq_refl). reflexivity.
  - exfalso. exact (infeasible_is_final _ _ Hsound eq_refl _ Hsat).
Qed.

(** C6 for a solver that answers OPTIMAL with the recorded values. *)
Lemma C6_reference_run_witness :
  optimize (answer OPTIMAL ref_values) ref_input 1000
  = (update_totals ref_input, Returns (Some (ref_result, 20000)))
  /\ ref_result !! "monthly_savings" = Some 800
  /\ ref_result !! "total_needs" = Some 2000
  /\ ref_result !! "total_wants" = Some 1200.
Proof.
  apply (C6_reference_run (answer OPTIMAL ref_values)).
  - exact (ref_answer_sound OPTIMAL eq_refl).
  - intros p _. left. reflexivity.
Defined.

(** C1 on the reference run, for transport_expenditure. *)
Lemma C1_allocations_are_step_multiples_witness :
  exists v k, ref_result !! "transport_expenditure" = Some v
              /\ 0 <= k
              /\ v = k * step_factor "transport_expenditure"
              /\ 0 <= v <= get ref_input "monthly_take_home".
Proof.
  apply (C1_allocations_are_step_multiples
           (answer FEASIBLE ref_values) ref_input 1000
           (update_totals ref_input) ref_result 20000).
  - exact (ref_answer_sound FEASIBLE eq_refl).
  - exact (ref_answer_run FEASIBLE eq_refl).
  - in_categories.
Defined.

(** C2 on the reference run. *)
Lemma C2_accounting_identities_witness :
  exists transport food housing insurance other_needs savings needs wants,
    ref_result !! "transport_expenditure" = Some transport
    /\ ref_result !! "food_expenditure" = Some food
    /\ ref_result !! "housing_expenditure" = Some housing
    /\ ref_result !! "insurance_expenditure" = Some insurance
    /\ ref_result !! "other_needs_expenditure" = Some other_needs
    /\ ref_result !! "monthly_savings" = Some savings
    /\ ref_result !! "total_needs" = Some needs
    /\ ref_result !! "total_wants" = Some wants
    /\ transport + food + housing + insurance + other_needs = needs
    /\ needs + wants + savings = get ref_input "monthly_take_home".
Proof.
  apply (C2_accounting_identities
           (answer FEASIBLE ref_values) ref_input 1000
           (update_totals ref_input) ref_result 20000).
  - exact (ref_answer_sound FEASIBLE eq_refl).
  - exact (ref_answer_run FEASIBLE eq_refl).
Defined.

(** C3 on the reference run: the income 4000. *)
Lemma C3_hard_bounds_are_exact_floors_witness :
  (int_fraction PyFloat.lit_0_2 4000 = inr (4000 / 5)
   /\ int_fraction PyFloat.lit_0_5 4000 = inr (4000 / 2)
   /\ int_fraction PyFloat.lit_0_3 4000 = inr (3 * 4000 / 10))
  /\ exists savings needs wants,
      ref_result !! "monthly_savings" = Some savings
      /\ ref_result !! "total_needs" = Some needs
      /\ ref_result !! "total_wants" = Some wants
      /\ get ref_input "monthly_take_home" / 5 <= savings
      /\ needs <= get ref_input "monthly_take_home" / 2
      /\ wants <= 3 * get ref_input "monthly_take_home" / 10.
Proof.
  destruct C3_hard_bounds_are_exact_floors as [Hc Hs].
  split.
  - destruct ref_prepare_ok as (p & Hp).
    apply prepare_inv in Hp as (_ & Hb).
    apply build_model_loop in Hb as (r & Hloop).
    exact (Hc _ _ 4000 r ltac:(lia) Hloop).
  - apply (Hs (answer FEASIBLE ref_values) ref_input 1000
              (update_totals ref_input) ref_result 20000).
    + exact (ref_answer_sound FEASIBLE eq_refl).
    + exact (ref_answer_run FEASIBLE eq_refl).
Defined.


(** C5 on the reference input: a solver that answers FEASIBLE, and one
    that answers INFEASIBLE. *)
Lemma C5_two_return_shapes_witness :
  (exists res loss,
      (optimize (answer FEASIBLE ref_values) ref_input 1000).2
      = Returns (Some (res, loss))
      /\ dom res = list_to_set categories)
  /\ (optimize (answer INFEASIBLE ref_values) ref_input 1000).2 = Returns None.
Proof.
  destruct ref_prepare_ok as (p & Hp). rewrite <- ref_income in Hp.
  split.
  - apply (proj1 (C5_two_return_shapes
                    (answer FEASIBLE ref_values) ref_input 1000 p Hp)).
    right. reflexivity.
  - apply (proj2 (C5_two_return_shapes
                    (answer INFEASIBLE ref_values) ref_input 1000 p Hp));
      unfold answer; cbn [fst]; intros H; discriminate H.
Defined.

(** ** The update of the caller's dictionary *)

Lemma lookup_update_totals ca key :
  update_totals ca !! key
  = if decide (key = "total_wants"%string)
    then Some (PyInt (current_total_wants ca))
    else if decide (key = "total_needs"%string)
         then Some (PyInt (current_total_needs ca))
         else ca !! key.
Proof.
  unfold update_totals.
  destruct (decide (key = "total_wants"%string)) as [->|Hw].
  - apply lookup_insert_eq.
  - rewrite lookup_insert_ne by congruence.
    destruct (decide (key = "total_needs"%string)) as [->|Hn].
    + apply lookup_insert_eq.
    + apply lookup_insert_ne. congruence.
Qed.

Lemma get_update_totals_other ca key :
  key <> "total_needs"%string -> key <> "total_wants"%string ->
  get (update_totals ca) key = get ca key.
Proof.
  intros Hn Hw. unfold get. rewrite lookup_update_totals.
  rewrite decide_False by exact Hw. rewrite decide_False by exact Hn.
  reflexivity.
Qed.

Lemma get_update_totals_needs ca :
  get (update_totals ca) "total_needs" = current_total_needs ca.
Proof. unfold get. rewrite lookup_update_totals. reflexivity. Qed.

Lemma get_update_totals_wants ca :
  get (update_totals ca) "total_wants" = current_total_wants ca.
Proof. unfold get. rewrite lookup_update_totals. reflexivity. Qed.

Lemma current_totals_update_totals ca :
  current_total_needs (update_totals ca) = current_total_needs ca
  /\ current_total_wants (update_totals ca) = current_total_wants ca.
Proof.
  assert (Hn : current_total_needs (update_totals ca) = current_total_needs ca).
  { unfold current_total_needs, needs_categories. cbn [foldl].
    rewrite !get_update_totals_other by discriminate. reflexivity. }
  split; [exact Hn|].
  unfold current_total_wants. rewrite Hn.
  rewrite !get_update_totals_other by discriminate. reflexivity.
Qed.

Lemma update_totals_idempotent ca :
  update_totals (update_totals ca) = update_totals ca.
Proof.
  apply map_eq. intros key.
  destruct (current_totals_update_totals ca) as [Hn Hw].
  rewrite (lookup_update_totals (update_totals ca)), Hn, Hw.
  rewrite (lookup_update_totals ca).
  repeat case_decide; reflexivity.
Qed.

(** ** No income *)

Lemma weights_loop_total ca scale (l : list string) :
  (forall cat, cat ∈ l -> is_inr (weight scale (get ca cat)) = true) ->
  forall ws0 : gmap string Z, exists ws,
    foldl (fun acc cat =>
             (try weights := acc in
              try w := weight scale (get ca cat) in
              inr (<[cat := w]> weights))%exn) (inr ws0) l = inr ws.
Proof.
  induction l as [|x l IH]; intros Hl ws0; simpl.
  - exists ws0. reflexivity.
  - destruct (weight scale (get ca x)) as [e|w] eqn:Hw.
    + specialize (Hl x ltac:(left)). rewrite Hw in Hl. discriminate Hl.
    + simpl. apply IH. intros cat Hin. apply Hl. right. exact Hin.
Qed.

Lemma zero_income_currents ca :
  get ca "monthly_take_home" = 0 ->
  (forall cat, cat ∈ supplied_categories -> get ca cat = 0) ->
  forall cat, cat ∈ categories -> get (update_totals ca) cat = 0.
Proof.
  intros Hincome Hzero.
  assert (Hn : current_total_needs ca = 0).
  { unfold current_total_needs, needs_categories. cbn [foldl].
    rewrite !Hzero by (unfold supplied_categories; repeat constructor).
    reflexivity. }
  assert (Hw : current_total_wants ca = 0).
  { unfold current_total_wants. rewrite Hn, Hincome.
    rewrite Hzero by (unfold supplied_categories; repeat constructor).
    reflexivity. }
  intros cat Hin. unfold categories in Hin.
  repeat (apply elem_of_cons in Hin as [->|Hin];
          [first [ rewrite get_update_totals_needs; exact Hn
                 | rewrite get_update_totals_wants; exact Hw
                 | rewrite get_update_totals_other by discriminate;
                   apply Hzero; unfold supplied_categories; repeat constructor ]|]).
  inversion Hin.
Qed.

Lemma zero_fractions :
  int_fraction PyFloat.lit_0_2 0 = inr 0
  /\ int_fraction PyFloat.lit_0_5 0 = inr 0
  /\ int_fraction PyFloat.lit_0_3 0 = inr 0.
Proof. repeat split; vm_compute; reflexivity. Qed.

Lemma zero_income_prepare ca scale w :
  (forall cat, cat ∈ categories -> get ca cat = 0) ->
  weight scale 0 = inr w ->
  exists p,
    prepare ca 0 scale = inr p
    /\ satisfies (model_of p) (values_of []).
Proof.
  intros Hcur Hw.
  destruct (weights_loop_total ca scale categories) with (ws0 := (∅ : gmap string Z))
    as (ws & Hws).
  { intros cat Hin. rewrite (Hcur cat Hin), Hw. reflexivity. }
  destruct (build_model ca ws 0 empty_model) as [e|[vs m]] eqn:Hb.
  - exfalso. unfold_build Hb.
    rewrite !Hcur in Hb by in_categories.
    pass_checks Hb ltac:(reflexivity).
    destruct zero_fractions as (E1 & E2 & E3). rewrite E1, E2, E3 in Hb.
    pass_checks Hb ltac:(reflexivity).
    discriminate Hb.
  - exists (mkPrepared ws vs m). split.
    + unfold prepare, compute_weights. rewrite Hws. cbn [bindE]. rewrite Hb.
      reflexivity.
    + cbn [model_of]. run_build Hb.
      destruct zero_fractions as (E1 & E2 & E3). rewrite E1, E2, E3 in Hb.
      resolve_checks Hb.
      injection Hb as <- <-.
      rewrite !Hcur by in_categories.
      apply satisfies_b_spec. vm_compute. reflexivity.
Qed.

Lemma foldl_sum_zero (f : string -> Z) (l : list string) :
  (forall cat, cat ∈ l -> f cat = 0) ->
  foldl (fun acc cat => acc + f cat) 0 l = 0.
Proof.
  intros Hf. rewrite (foldl_sum_ext f (fun _ => 0) l Hf 0).
  clear Hf. induction l as [|x l IH]; simpl; [reflexivity | exact IH].
Qed.

(** With no income every value of a satisfied model is fixed. *)
Lemma zero_income_extract ca scale p st Value :
  prepare ca 0 scale = inr p ->
  satisfies (model_of p) Value ->
  is_solution st = true ->
  exists res,
    extract p (st, Value) = Some (res, 0)
    /\ (forall cat, cat ∈ categories -> res !! cat = Some 0)
    /\ eval Value (objective (model_of p)) = 0.
Proof.
  intros Hp Hsat Hst.
  apply prepare_inv in Hp as (_ & Hb).
  apply build_model_inv in Hb as (sf & nc & wc & _ & _ & _ & Hm).
  destruct (Hm Value) as (Hfacts & Hobj).
  destruct (Hfacts Hsat) as (Hcat & _).
  destruct (extract p (st, Value)) as [[res loss]|] eqn:He;
    [|unfold extract in He; rewrite Hst in He; discriminate He].
  apply extract_inv in He as (_ & Hres & _ & Hloss).
  assert (Hq : forall cat, cat ∈ categories ->
                 quad_value (vars_of p) Value cat * item (weights_of p) cat = 0).
  { intros cat Hin.
    pose proof (categories_cases _ Hcat cat Hin) as [_ _ _ _ Hq]. 
    change (0 ^ 2) with 0 in Hq. replace (quad_value (vars_of p) Value cat) with 0 by lia.
    reflexivity. }
  exists res. split; [|split].
  - rewrite Hloss, (foldl_sum_zero _ _ Hq). reflexivity.
  - intros cat Hin. rewrite (Hres cat Hin).
    pose proof (categories_cases _ Hcat cat Hin) as [_ Hr _ _ _].
    f_equal. lia.
  - rewrite Hobj. exact (foldl_sum_zero _ _ Hq).
Qed.

(** C7 (amended): with no income and nothing spent or saved, the function
    returns a solution in which every category is 0, with loss 0.  The
    weight of a zero allocation must be computable for the given scale (it
    is for the default scale 1000), and the solver is taken to keep its
    contract and to finish its search. *)
Theorem C7_zero_income_zero_allocations Solve ca scale w :
  get ca "monthly_take_home" = 0 ->
  (forall cat, cat ∈ supplied_categories -> get ca cat = 0) ->
  weight scale 0 = inr w ->
  SolverSoundFor Solve ca scale ->
  SolverCompleteFor Solve ca scale ->
  exists res,
    optimize Solve ca scale = (update_totals ca, Returns (Some (res, 0)))
    /\ forall cat, cat ∈ categories -> res !! cat = Some 0.
Proof.
  intros Hincome Hzero Hw Hsound Hcomplete.
  pose proof (zero_income_currents ca Hincome Hzero) as Hcur.
  destruct (zero_income_prepare _ scale w Hcur Hw) as (p & Hp & Hsat0).
  unfold SolverSoundFor, SolverCompleteFor in *. rewrite Hincome in *.
  specialize (Hsound p Hp). specialize (Hcomplete p Hp).
  unfold optimize. cbv zeta. rewrite Hincome, Hp.
  destruct (Solve (model_of p)) as [st Value].
  destruct Hcomplete as [Hst|Hst]; cbn [fst] in Hst; subst st.
  - pose proof (solution_satisfies _ _ Hsound eq_refl) as HV. cbn [snd] in HV.
    destruct (zero_income_extract _ _ _ OPTIMAL _ Hp HV eq_refl)
      as (res & He & Hres & _).
    exists res. rewrite He. split; [reflexivity | exact Hres].
  - exfalso. exact (infeasible_is_final _ _ Hsound eq_refl _ Hsat0).
Qed.

Lemma nothing_input_zero :
  get nothing_input "monthly_take_home" = 0
  /\ forall cat, cat ∈ supplied_categories -> get nothing_input cat = 0.
Proof.
  split; [vm_compute; reflexivity|].
  intros cat Hin. unfold supplied_categories in Hin.
  repeat (apply elem_of_cons in Hin as [->|Hin]; [vm_compute; reflexivity|]).
  inversion Hin.
Qed.

Lemma nothing_answer_sound :
  SolverSoundFor (answer OPTIMAL []) nothing_input 1000.
Proof.
  destruct nothing_input_zero as [Hincome Hzero].
  pose proof (zero_income_currents _ Hincome Hzero) as Hcur.
  intros p Hp. rewrite Hincome in Hp.
  destruct (zero_income_prepare _ 1000 1000 Hcur ltac:(vm_compute; reflexivity))
    as (p' & Hp' & Hsat0).
  assert (p' = p) as -> by congruence.
  split; unfold answer; cbn [fst snd].
  - intros _. exact Hsat0.
  - intros _ Value HV.
    destruct (zero_income_extract _ _ _ OPTIMAL _ Hp HV eq_refl) as (_ & _ & _ & ->).
    destruct (zero_income_extract _ _ _ OPTIMAL _ Hp Hsat0 eq_refl) as (_ & _ & _ & ->).
    reflexivity.
  - intros H. discriminate H.
Qed.

(** C7 (amended) on the input that holds nothing but a zero income. *)
Lemma C7_zero_income_zero_allocations_witness :
  exists res,
    optimize (answer OPTIMAL []) nothing_input 1000
    = (update_totals nothing_input, Returns (Some (res, 0)))
    /\ forall cat, cat ∈ categories -> res !! cat = Some 0.
Proof.
  apply (C7_zero_income_zero_allocations
           (answer OPTIMAL []) nothing_input 1000 1000).
  - exact (proj1 nothing_input_zero).
  - exact (proj2 nothing_input_zero).
  - vm_compute. reflexivity.
  - exact nothing_answer_sound.
  - intros p _. left. reflexivity.
Defined.

(** ** The deviation bound *)

(** A current value above twice the income leaves no room for the
    deviation variable: whenever the function reaches the solver, and the
    solver keeps its contract, the answer is (None, None). *)
Lemma deviation_bound_infeasible Solve ca scale cat p :
  cat ∈ categories ->
  2 * get ca "monthly_take_home" < get (update_totals ca) cat ->
  SolverSoundFor Solve ca scale ->
  prepare (update_totals ca) (get ca "monthly_take_home") scale = inr p ->
  optimize Solve ca scale = (update_totals ca, Returns None).
Proof.
  intros Hin Hbig Hsound Hp.
  destruct (optimize Solve ca scale) as [ca' out] eqn:Ho.
  assert (ca' = update_totals ca) as ->.
  { unfold optimize in Ho. injection Ho as <- _. reflexivity. }
  destruct out as [e|[[res loss]|]].
  - unfold optimize in Ho. rewrite Hp in Ho. injection Ho as Ho. discriminate Ho.
  - exfalso.
    destruct (returned_solution _ _ _ _ _ _ Hsound Ho)
      as (ws & sf & nc & wc & al & q & _ & _ & _ & _ & _ & _ & Hcat & _).
    pose proof (categories_cases _ Hcat cat Hin) as [_ Hr Hd _ _]. lia.
  - reflexivity.
Qed.

Lemma no_income_infeasible Solve :
  SolverSoundFor Solve no_income_input 1000 ->
  optimize Solve no_income_input 1000
  = (update_totals no_income_input, Returns None).
Proof.
  intros Hsound.
  destruct (is_inr_true
              (prepare (update_totals no_income_input)
                       (get no_income_input "monthly_take_home") 1000))
    as (p & Hp); [vm_compute; reflexivity|].
  apply (deviation_bound_infeasible Solve _ _ "food_expenditure" p);
    [in_categories | vm_compute; reflexivity | exact Hsound | exact Hp].
Qed.

(** C7, as stated, fails: with no income and 100 spent on food, a solver
    that keeps its contract and finishes its search exists, and the
    function returns (None, None). *)
Lemma C7_counterexample :
  get no_income_input "monthly_take_home" = 0
  /\ SolverSoundFor (answer INFEASIBLE []) no_income_input 1000
  /\ SolverCompleteFor (answer INFEASIBLE []) no_income_input 1000
  /\ optimize (answer INFEASIBLE []) no_income_input 1000
     = (update_totals no_income_input, Returns None).
Proof.
  assert (Hsound : SolverSoundFor (answer INFEASIBLE []) no_income_input 1000).
  { intros p Hp. split; unfold answer; cbn [fst snd].
    - intros H. discriminate H.
    - intros H. discriminate H.
    - intros _ Value HV.
      apply prepare_inv in Hp as (_ & Hb).
      apply build_model_inv in Hb as (sf & nc & wc & _ & _ & _ & Hm).
      destruct (Hm Value) as (Hfacts & _).
      destruct (Hfacts HV) as (Hcat & _).
      pose proof (categories_cases _ Hcat "food_expenditure"%string
                    ltac:(in_categories)) as [_ Hr Hd _ _].
      replace (get (update_totals no_income_input) "food_expenditure")
        with 100 in Hd by (vm_compute; reflexivity).
      replace (get no_income_input "monthly_take_home")
        with 0 in Hr, Hd by (vm_compute; reflexivity).
      lia. }
  split; [vm_compute; reflexivity|]. split; [exact Hsound|]. split.
  - intros p _. right. reflexivity.
  - exact (no_income_infeasible _ Hsound).
Qed.

(** ** Division by zero in the weights *)

Lemma weight_minus_one scale : weight scale (-1) = inl ZeroDivisionError.
Proof. reflexivity. Qed.

Lemma compute_weights_raises ca scale cat e :
  cat ∈ categories ->
  weight scale (get ca cat) = inl e ->
  exists e', compute_weights ca scale = inl e'.
Proof.
  intros Hin He.
  destruct (compute_weights ca scale) as [e'|ws] eqn:Hws.
  - exists e'. reflexivity.
  - destruct (compute_weights_inv _ _ _ Hws cat Hin) as [Hw _]. congruence.
Qed.

(** Whenever needs and savings exceed the income by exactly one, the
    divisor of the weight of total_wants is zero and the call raises. *)
Lemma wants_minus_one_raises Solve ca scale :
  current_total_wants ca = -1 ->
  exists e, (optimize Solve ca scale).2 = Raises e.
Proof.
  intros Hw.
  destruct (compute_weights_raises (update_totals ca) scale "total_wants"
              ZeroDivisionError ltac:(in_categories)) as (e & He).
  { rewrite get_update_totals_wants, Hw. apply weight_minus_one. }
  exists e. unfold optimize, prepare. cbn [snd]. rewrite He. reflexivity.
Qed.

(** For non-negative supplied entries the divisor [current + 1] is
    positive for every category but the derived total_wants. *)
Lemma divisor_positive_but_for_wants ca cat :
  non_negative_input ca ->
  cat ∈ categories -> cat <> "total_wants"%string ->
  0 < get (update_totals ca) cat + 1.
Proof.
  intros [_ Hpos] Hin Hne.
  assert (Hs : forall c, c ∈ supplied_categories -> 0 <= get ca c) by exact Hpos.
  assert (Hn : 0 <= current_total_needs ca).
  { unfold current_total_needs, needs_categories. cbn [foldl].
    pose proof (Hs "transport_expenditure"%string
                  ltac:(unfold supplied_categories; repeat constructor)).
    pose proof (Hs "food_expenditure"%string
                  ltac:(unfold supplied_categories; repeat constructor)).
    pose proof (Hs "housing_expenditure"%string
                  ltac:(unfold supplied_categories; repeat constructor)).
    pose proof (Hs "insurance_expenditure"%string
                  ltac:(unfold supplied_categories; repeat constructor)).
    pose proof (Hs "other_needs_expenditure"%string
                  ltac:(unfold supplied_categories; repeat constructor)).
    lia. }
  unfold categories in Hin.
  repeat (apply elem_of_cons in Hin as [->|Hin];
          [first [ congruence
                 | rewrite get_update_totals_needs; lia
                 | rewrite get_update_totals_other by discriminate;
                   match goal with
                   | |- 0 < get ca ?c + 1 =>
                       pose proof (Hs c ltac:(unfold supplied_categories;
                                              repeat constructor)); lia
                   end ]|]).
  inversion Hin.
Qed.

(** C8 at the failing input: every supplied entry is non-negative, the
    derived total_wants is -1, its divisor is 0, and the call raises
    ZeroDivisionError. *)
Theorem C8_zero_division_on_overspent_input Solve :
  non_negative_input overspent_input
  /\ get (update_totals overspent_input) "total_wants" + 1 = 0
  /\ optimize Solve overspent_input 1000
     = (update_totals overspent_input, Raises ZeroDivisionError).
Proof.
  split; [|split].
  - split; [vm_compute; discriminate|].
    intros cat Hin. unfold supplied_categories in Hin.
    repeat (apply elem_of_cons in Hin as [->|Hin]; [vm_compute; discriminate|]).
    inversion Hin.
  - vm_compute. reflexivity.
  - unfold optimize, prepare. cbv zeta.
    replace (compute_weights (update_totals overspent_input) 1000)
      with (@inl exn (gmap string Z) ZeroDivisionError)
      by (vm_compute; reflexivity).
    reflexivity.
Qed.

(** C10 at the failing input: the investment is above twice the income,
    yet the call raises ZeroDivisionError before it builds the model. *)
Theorem C10_zero_division_on_overinvested_input Solve :
  0 <= get overinvested_input "monthly_take_home"
  /\ 2 * get overinvested_input "monthly_take_home"
     < get overinvested_input "investment_expenditure"
  /\ optimize Solve overinvested_input 1000
     = (update_totals overinvested_input, Raises ZeroDivisionError).
Proof.
  split; [vm_compute; discriminate|]. split; [vm_compute; reflexivity|].
  unfold optimize, prepare. cbv zeta.
  replace (compute_weights (update_totals overinvested_input) 1000)
    with (@inl exn (gmap string Z) ZeroDivisionError)
    by (vm_compute; reflexivity).
  reflexivity.
Qed.

(** ** The caller's dictionary *)

(** C9, as stated, fails: after the call on the reference input the
    dictionary is not the one that was passed. *)
Lemma C9_counterexample :
  (optimize (answer OPTIMAL ref_values) ref_input 1000).1 <> ref_input.
Proof.
  unfold optimize. cbn [fst]. intros H.
  assert (Hl : update_totals ref_input !! "total_needs" = ref_input !! "total_needs")
    by (rewrite H; reflexivity).
  vm_compute in Hl. discriminate Hl.
Qed.

(** C9 (amended): a call writes the two derived entries total_needs and
    total_wants into the caller's dictionary and changes nothing else in
    it, whatever the outcome; nothing else is carried over, and a second
    call on the updated dictionary leaves it as it is and has the same
    outcome. *)
Theorem C9_only_the_totals_are_written Solve ca scale :
  (forall key, key <> "total_needs"%string -> key <> "total_wants"%string ->
               (optimize Solve ca scale).1 !! key = ca !! key)
  /\ (optimize Solve ca scale).1 !! "total_needs"
     = Some (PyInt (current_total_needs ca))
  /\ (optimize Solve ca scale).1 !! "total_wants"
     = Some (PyInt (current_total_wants ca))
  /\ optimize Solve (optimize Solve ca scale).1 scale = optimize Solve ca scale.
Proof.
  assert (Hfst : (optimize Solve ca scale).1 = update_totals ca) by reflexivity.
  rewrite Hfst. clear Hfst.
  split; [|split; [|split]].
  - intros key Hn Hw. rewrite lookup_update_totals.
    rewrite decide_False by exact Hw. rewrite decide_False by exact Hn.
    reflexivity.
  - rewrite lookup_update_totals. reflexivity.
  - rewrite lookup_update_totals. reflexivity.
  - unfold optimize. cbv zeta.
    rewrite update_totals_idempotent.
    rewrite (get_update_totals_other ca "monthly_take_home") by discriminate.
    reflexivity.
Qed.

(** * Further properties of the function *)

(** ** Consequences of the constraints *)

Lemma returned_units Solve ca scale ca' res loss :
  SolverSoundFor Solve ca scale ->
  optimize Solve ca scale = (ca', Returns (Some (res, loss))) ->
  exists al : string -> Z,
    (forall cat, cat ∈ categories -> res !! cat = Some (al cat))
    /\ (forall cat, cat ∈ categories ->
                    exists k, 0 <= k /\ al cat = step_factor cat * k)
    /\ (forall cat, cat ∈ categories ->
                    - get ca "monthly_take_home"
                    <= al cat - get (update_totals ca) cat
                    <= get ca "monthly_take_home")
    /\ al "transport_expenditure" + al "food_expenditure"
       + al "housing_expenditure" + al "insurance_expenditure"
       + al "other_needs_expenditure" = al "total_needs"
    /\ al "total_needs" + al "total_wants" + al "monthly_savings"
       = get ca "monthly_take_home".
Proof.
  intros Hsound H.
  destruct (returned_solution _ _ _ _ _ _ Hsound H)
    as (ws & sf & nc & wc & al & q & _ & _ & _ & _ & Hres & _ & Hcat & Hbud & _).
  exists al. split; [exact Hres|]. split; [|split].
  - intros cat Hin.
    pose proof (categories_cases _ Hcat cat Hin) as [(k & Hk & Hal) _ _ _ _].
    exists k. rewrite <- (factors_step_factor cat Hin). split; [lia | exact Hal].
  - intros cat Hin.
    pose proof (categories_cases _ Hcat cat Hin) as [_ _ Hd _ _]. exact Hd.
  - destruct Hbud as [Hn Hi _ _ _]. split; assumption.
Qed.

(** X1: a solution is returned only for an income that is a non-negative
    multiple of 50: total_needs, total_wants and monthly_savings are
    multiples of 50 and add up to the income. *)
Theorem solution_only_for_income_multiple_of_50 Solve ca scale ca' res loss :
  SolverSoundFor Solve ca scale ->
  optimize Solve ca scale = (ca', Returns (Some (res, loss))) ->
  0 <= get ca "monthly_take_home"
  /\ get ca "monthly_take_home" mod 50 = 0.
Proof.
  intros Hsound H.
  destruct (returned_units _ _ _ _ _ _ Hsound H)
    as (al & _ & Hk & _ & _ & Hsum).
  destruct (Hk "total_needs"%string ltac:(in_categories)) as (k1 & Hk1 & E1).
  destruct (Hk "total_wants"%string ltac:(in_categories)) as (k2 & Hk2 & E2).
  destruct (Hk "monthly_savings"%string ltac:(in_categories)) as (k3 & Hk3 & E3).
  change (step_factor "total_needs") with 50 in E1.
  change (step_factor "total_wants") with 50 in E2.
  change (step_factor "monthly_savings") with 50 in E3.
  rewrite <- Hsum, E1, E2, E3. split; [lia|].
  replace (50 * k1 + 50 * k2 + 50 * k3) with ((k1 + k2 + k3) * 50) by ring.
  apply Z.mod_mul. discriminate.
Qed.

(** X2: the returned transport_expenditure is a multiple of 50, although
    its step factor is 10: it is total_needs minus four multiples of 50. *)
Theorem transport_is_multiple_of_50 Solve ca scale ca' res loss :
  SolverSoundFor Solve ca scale ->
  optimize Solve ca scale = (ca', Returns (Some (res, loss))) ->
  exists v, res !! "transport_expenditure" = Some v /\ v mod 50 = 0.
Proof.
  intros Hsound H.
  destruct (returned_units _ _ _ _ _ _ Hsound H)
    as (al & Hres & Hk & _ & Hneeds & _).
  destruct (Hk "total_needs"%string ltac:(in_categories)) as (k1 & _ & E1).
  destruct (Hk "food_expenditure"%string ltac:(in_categories)) as (k2 & _ & E2).
  destruct (Hk "housing_expenditure"%string ltac:(in_categories)) as (k3 & _ & E3).
  destruct (Hk "insurance_expenditure"%string ltac:(in_categories)) as (k4 & _ & E4).
  destruct (Hk "other_needs_expenditure"%string ltac:(in_categories)) as (k5 & _ & E5).
  change (step_factor _) with 50 in E1, E2, E3, E4, E5.
  exists (al "transport_expenditure"). split; [apply Hres; in_categories|].
  replace (al "transport_expenditure") with ((k1 - k2 - k3 - k4 - k5) * 50) by lia.
  apply Z.mod_mul. discriminate.
Qed.

(** X3: no category is moved by more than the income: every returned
    value differs from the current value by at most the income, so a
    solution exists only if every current value, derived ones included,
    lies between minus the income and twice the income. *)
Theorem no_category_moves_more_than_income Solve ca scale ca' res loss :
  SolverSoundFor Solve ca scale ->
  optimize Solve ca scale = (ca', Returns (Some (res, loss))) ->
  forall cat, cat ∈ categories ->
    exists v, res !! cat = Some v
              /\ Z.abs (v - get (update_totals ca) cat)
                 <= get ca "monthly_take_home"
              /\ - get ca "monthly_take_home"
                 <= get (update_totals ca) cat
                 <= 2 * get ca "monthly_take_home".
Proof.
  intros Hsound H cat Hin.
  destruct (returned_solution _ _ _ _ _ _ Hsound H)
    as (ws & sf & nc & wc & al & q & _ & _ & _ & _ & Hres & _ & Hcat & _).
  pose proof (categories_cases _ Hcat cat Hin) as [_ Hr Hd _ _].
  exists (al cat). split; [exact (Hres cat Hin)|]. lia.
Qed.

(** ** The loss *)

Lemma foldl_sum_nonneg (f : string -> Z) (l : list string) :
  (forall cat, cat ∈ l -> 0 <= f cat) ->
  forall acc, 0 <= acc ->
    acc <= foldl (fun acc cat => acc + f cat) acc l
    /\ (foldl (fun acc cat => acc + f cat) acc l = acc ->
        forall cat, cat ∈ l -> f cat = 0).
Proof.
  induction l as [|x l IH]; intros Hf acc Hacc; simpl.
  - split; [lia|]. intros _ cat Hin. inversion Hin.
  - assert (Hx : 0 <= f x) by (apply Hf; left).
    destruct (IH (fun cat Hin => Hf cat ltac:(right; exact Hin))
                 (acc + f x) ltac:(lia)) as [Hle Hz].
    split; [lia|].
    intros Heq cat Hin.
    assert (f x = 0) by lia.
    apply elem_of_cons in Hin as [->|Hin]; [assumption|].
    apply Hz; [lia | exact Hin].
Qed.

(** X4: the returned loss is never negative, and it is 0 exactly when
    the returned allocation equals the current value in every category,
    the derived total_needs and total_wants included. *)
Theorem loss_zero_iff_nothing_changes Solve ca scale ca' res loss :
  SolverSoundFor Solve ca scale ->
  optimize Solve ca scale = (ca', Returns (Some (res, loss))) ->
  0 <= loss
  /\ (loss = 0 <->
      forall cat, cat ∈ categories ->
                  res !! cat = Some (get (update_totals ca) cat)).
Proof.
  intros Hsound H.
  destruct (returned_solution _ _ _ _ _ _ Hsound H)
    as (ws & sf & nc & wc & al & q & Hws & _ & _ & _ & Hres & _ & Hcat & _ & Hloss).
  pose proof (compute_weights_inv _ _ _ Hws) as Hw.
  assert (Hterm : forall cat, cat ∈ categories -> 0 <= q cat * item ws cat).
  { intros cat Hin.
    pose proof (categories_cases _ Hcat cat Hin) as [_ _ _ _ Hq].
    destruct (Hw cat Hin) as [_ H1]. nia. }
  destruct (foldl_sum_nonneg _ categories Hterm 0 ltac:(lia)) as [Hle Hz].
  rewrite Hloss. split; [exact Hle|]. split.
  - intros H0 cat Hin. rewrite (Hres cat Hin). f_equal.
    pose proof (Hz H0 cat Hin) as Hq0. cbv beta in Hq0.
    pose proof (categories_cases _ Hcat cat Hin) as [_ _ _ Hq Hqr].
    destruct (Hw cat Hin) as [_ H1].
    assert (Hq00 : q cat = 0) by nia.
    rewrite Hq00 in Hq. symmetry in Hq. apply Z.mul_eq_0 in Hq. lia.
  - intros Hsame.
    rewrite (foldl_sum_ext _ (fun _ => 0) categories).
    + reflexivity.
    + intros cat Hin.
      pose proof (categories_cases _ Hcat cat Hin) as [_ _ _ Hq _].
      pose proof (Hsame cat Hin) as E. rewrite (Hres cat Hin) in E.
      injection E as E. rewrite Hq, E. ring.
Qed.

(** ** The keys that are read *)

Lemma compute_weights_ext ca1 ca2 scale :
  (forall cat, cat ∈ categories -> get ca1 cat = get ca2 cat) ->
  compute_weights ca1 scale = compute_weights ca2 scale.
Proof.
  intros Hg. unfold compute_weights.
  generalize (@inr exn (gmap string Z) ∅).
  induction categories as [|x l IH]; intros acc; simpl; [reflexivity|].
  rewrite (Hg x) by left. apply IH.
  intros cat Hin. apply Hg. right. exact Hin.
Qed.

Lemma build_model_ext ca1 ca2 ws income :
  (forall cat, cat ∈ categories -> get ca1 cat = get ca2 cat) ->
  build_model ca1 ws income empty_model = build_model ca2 ws income empty_model.
Proof.
  intros Hg.
  lazy beta iota zeta delta
    [build_model for_each add_category bind ret NewIntVar Add
     AddMultiplicationEquality Minimize raise_or categories needs_categories
     no_vars empty_model variables constraints objective unit_vars alloc_vars
     quad_vars weighted_quad_terms sum_exprs String.app fst snd
     List.length List.app List.map foldl Nat.add].
  repeat match goal with
         | |- context [get ca1 ?c] => rewrite (Hg c ltac:(in_categories))
         end.
  reflexivity.
Qed.

(** X5: the outcome depends on the input only through the integer values
    of the eight keys that are read (the income and the seven supplied
    categories): other keys, stale total_needs and total_wants entries
    and the difference between [True] and [1] change nothing. *)
Theorem only_recognised_keys_matter Solve ca1 ca2 scale :
  (forall key, key ∈ recognised_keys -> get ca1 key = get ca2 key) ->
  (optimize Solve ca1 scale).2 = (optimize Solve ca2 scale).2.
Proof.
  intros Hk.
  assert (Hincome : get ca1 "monthly_take_home" = get ca2 "monthly_take_home")
    by (apply Hk; left).
  assert (Hs : forall cat, cat ∈ supplied_categories -> get ca1 cat = get ca2 cat)
    by (intros cat Hin; apply Hk; right; exact Hin).
  assert (Hn : current_total_needs ca1 = current_total_needs ca2).
  { unfold current_total_needs, needs_categories. cbn [foldl].
    rewrite !Hs by (unfold supplied_categories; repeat constructor).
    reflexivity. }
  assert (Hw : current_total_wants ca1 = current_total_wants ca2).
  { unfold current_total_wants. rewrite Hn, Hincome.
    rewrite Hs by (unfold supplied_categories; repeat constructor).
    reflexivity. }
  assert (Hg : forall cat, cat ∈ categories ->
                 get (update_totals ca1) cat = get (update_totals ca2) cat).
  { intros cat Hin. unfold categories in Hin.
    repeat (apply elem_of_cons in Hin as [->|Hin];
            [first [ rewrite !get_update_totals_needs; exact Hn
                   | rewrite !get_update_totals_wants; exact Hw
                   | rewrite !get_update_totals_other by discriminate;
                     apply Hs; unfold supplied_categories;
                     repeat constructor ]|]).
    inversion Hin. }
  unfold optimize, prepare. cbv zeta. cbn [snd].
  rewrite Hincome, (compute_weights_ext _ _ scale Hg).
  destruct (compute_weights (update_totals ca2) scale) as [e|ws];
    cbn [bindE]; [reflexivity|].
  rewrite (build_model_ext _ _ ws _ Hg). reflexivity.
Qed.

Lemma ref_budget_only_agrees :
  forall key, key ∈ recognised_keys ->
              get ref_input key = get ref_budget_only key.
Proof.
  intros key Hin. unfold recognised_keys, supplied_categories in Hin.
  repeat (apply elem_of_cons in Hin as [->|Hin]; [vm_compute; reflexivity|]).
  inversion Hin.
Qed.

(** X5 on the reference input and its eight budget keys. *)
Lemma only_recognised_keys_matter_witness :
  (optimize (answer OPTIMAL ref_values) ref_input 1000).2
  = (optimize (answer OPTIMAL ref_values) ref_budget_only 1000).2.
Proof.
  apply (only_recognised_keys_matter
           (answer OPTIMAL ref_values) ref_input ref_budget_only 1000).
  exact ref_budget_only_agrees.
Defined.

(** ** Building an assignment *)

Lemma square_within (d i : Z) :
  - i <= d <= i -> 0 <= d * d <= i ^ 2.
Proof. intros H. rewrite Z.pow_2_r. nia. Qed.

(** The converse of [build_model_inv]: units within their bounds, a
    deviation within the income and the budget constraints give values
    that satisfy the model. *)
Lemma build_model_satisfied ca ws income vs m sf nc wc (u al : string -> Z) :
  build_model ca ws income empty_model = inr (vs, m) ->
  int_fraction PyFloat.lit_0_2 income = inr sf ->
  int_fraction PyFloat.lit_0_5 income = inr nc ->
  int_fraction PyFloat.lit_0_3 income = inr wc ->
  (forall cat, cat ∈ categories ->
               0 <= u cat <= income / item factors cat
               /\ al cat = item factors cat * u cat
               /\ - income <= al cat - get ca cat <= income) ->
  budget_ok income sf nc wc al ->
  satisfies m (layout_values u al (get ca))
  /\ (forall cat, cat ∈ categories ->
                  alloc_value vs (layout_values u al (get ca)) cat = al cat
                  /\ quad_value vs (layout_values u al (get ca)) cat
                     = (al cat - get ca cat) * (al cat - get ca cat)).
Proof.
  intros Hb Hsf Hnc Hwc Hcat [Hn Hi Hs Hne Hwa].
  run_build Hb. rewrite Hsf, Hnc, Hwc in Hb. resolve_checks Hb.
  injection Hb as <- <-. clear_checks.
  assert (Hall : Forall (fun cat =>
            (0 <= u cat <= income / item factors cat
             /\ al cat = item factors cat * u cat
             /\ - income <= al cat - get ca cat <= income)
            /\ 0 <= al cat <= income
            /\ 0 <= (al cat - get ca cat) * (al cat - get ca cat) <= income ^ 2)
            categories).
  { apply Forall_forall. intros cat Hin. split; [exact (Hcat cat Hin)|].
    destruct (Hcat cat Hin) as (Hu & Hal & Hd).
    split; [|exact (square_within _ _ Hd)].
    rewrite (factors_step_factor cat Hin) in Hu, Hal.
    unfold step_factor in Hu, Hal. revert Hu Hal.
    pose proof (Z.mul_div_le income 10 ltac:(lia)).
    pose proof (Z.mul_div_le income 50 ltac:(lia)).
    destruct (decide (cat = "transport_expenditure"%string)); lia. }
  unfold categories in Hall.
  repeat match type of Hall with
         | Forall _ (_ :: _) =>
             let H1 := fresh "Hc" in
             apply Forall_cons in Hall as [H1 Hall];
             cbv beta in H1; eval_items_in H1
         end.
  clear Hall Hcat.
  split.
  - unfold satisfies, layout_values, values_of, categories.
    cbn [variables constraints within_bounds all_hold holds eval product
         foldr flat_map app nth lb ub].
    repeat split; lia.
  - intros cat Hin. unfold categories in Hin.
    unfold alloc_value, quad_value, layout_values, values_of, categories.
    cbn [alloc_vars quad_vars flat_map app].
    repeat (apply elem_of_cons in Hin as [->|Hin];
            [eval_items; split; reflexivity|]).
    inversion Hin.
Qed.

(** ** Investment *)

(** The four variables of investment_expenditure take part in no budget
    constraint: they can be set to any admissible number of units in a
    satisfying assignment, and only their term of the objective changes. *)
Lemma investment_can_move ca ws income vs m k Value :
  build_model ca ws income empty_model = inr (vs, m) ->
  satisfies m Value ->
  0 <= k <= income / 50 ->
  - income <= 50 * k - get ca "investment_expenditure" <= income ->
  satisfies m (with_investment_units (get ca "investment_expenditure") k Value)
  /\ eval (with_investment_units (get ca "investment_expenditure") k Value)
          (objective m)
     - eval Value (objective m)
     = item ws "investment_expenditure"
       * ((50 * k - get ca "investment_expenditure")
          * (50 * k - get ca "investment_expenditure")
          - quad_value vs Value "investment_expenditure").
Proof.
  intros H HV Hk Hd. run_build H.
  destruct (int_fraction PyFloat.lit_0_2 income) as [?|sf]; [discriminate H|].
  resolve_checks H.
  destruct (int_fraction PyFloat.lit_0_5 income) as [?|nc]; [discriminate H|].
  resolve_checks H.
  destruct (int_fraction PyFloat.lit_0_3 income) as [?|wc]; [discriminate H|].
  resolve_checks H.
  injection H as <- <-. clear_checks.
  pose proof (square_within _ _ Hd) as Hq.
  pose proof (Z.mul_div_le income 50 ltac:(lia)) as Hdiv.
  destruct HV as (Hb & Hc).
  cbn [variables constraints within_bounds all_hold holds eval product
       foldr nth lb ub] in Hb, Hc.
  decompose [and] Hb. decompose [and] Hc. clear Hb Hc.
  split.
  - unfold satisfies, with_investment_units.
    cbn [variables constraints within_bounds all_hold holds eval product
         foldr nth lb ub Nat.eqb].
    repeat split; first [assumption | lia].
  - unfold quad_value, with_investment_units.
    cbn [objective eval quad_vars Nat.eqb]. eval_items. ring.
Qed.

Lemma square_le_abs (d d' : Z) : d * d <= d' * d' -> Z.abs d <= Z.abs d'.
Proof.
  intros H.
  destruct (Z.abs_spec d) as [[? ->]|[? ->]],
           (Z.abs_spec d') as [[? ->]|[? ->]]; nia.
Qed.

(** A returned solution of a solver that finished its search comes with
    the status OPTIMAL. *)
Lemma completed_solution Solve ca scale ca' res loss :
  SolverCompleteFor Solve ca scale ->
  optimize Solve ca scale = (ca', Returns (Some (res, loss))) ->
  exists p Value,
    prepare (update_totals ca) (get ca "monthly_take_home") scale = inr p
    /\ Solve (model_of p) = (OPTIMAL, Value)
    /\ extract p (OPTIMAL, Value) = Some (res, loss).
Proof.
  intros Hcomplete H.
  apply optimize_inv in H as (p & Hp & Hr).
  specialize (Hcomplete p Hp).
  destruct (Solve (model_of p)) as [st Value] eqn:HS.
  exists p, Value. split; [exact Hp|].
  destruct Hcomplete as [Hst|Hst]; cbn [fst] in Hst; subst st.
  - split; [exact HS | symmetry; exact Hr].
  - discriminate Hr.
Qed.

(** X6: investment_expenditure is tied to no budget constraint, so a
    solver that finishes its search returns for it a multiple of 50 that
    is nearest to the current investment among the admissible ones (from
    0 to the income, within the income of the current value). *)
Theorem investment_is_a_nearest_step Solve ca scale ca' res loss :
  SolverSoundFor Solve ca scale ->
  SolverCompleteFor Solve ca scale ->
  optimize Solve ca scale = (ca', Returns (Some (res, loss))) ->
  exists v,
    res !! "investment_expenditure" = Some v
    /\ forall k,
        0 <= k <= get ca "monthly_take_home" / 50 ->
        - get ca "monthly_take_home"
        <= 50 * k - get ca "investment_expenditure"
        <= get ca "monthly_take_home" ->
        Z.abs (v - get ca "investment_expenditure")
        <= Z.abs (50 * k - get ca "investment_expenditure").
Proof.
  intros Hsound Hcomplete H.
  destruct (completed_solution _ _ _ _ _ _ Hcomplete H)
    as (p & Value & Hp & HS & Hex).
  specialize (Hsound p Hp). rewrite HS in Hsound.
  apply extract_inv in Hex as (_ & Hres & _ & _).
  pose proof (solution_satisfies _ _ Hsound eq_refl) as HV. cbn [snd] in HV.
  pose proof (optimal_is_least _ _ Hsound eq_refl) as Hleast. cbn [snd] in Hleast.
  apply prepare_inv in Hp as (Hws & Hb).
  pose proof (compute_weights_inv _ _ _ Hws "investment_expenditure"%string
                ltac:(in_categories)) as [_ Hw].
  destruct (build_model_inv _ _ _ _ _ Hb) as (sf & nc & wc & _ & _ & _ & Hm).
  destruct (Hm Value) as (Hfacts & _).
  destruct (Hfacts HV) as (Hcat & _).
  pose proof (categories_cases _ Hcat "investment_expenditure"%string
                ltac:(in_categories)) as [_ _ _ Hq _].
  assert (Hcur : get (update_totals ca) "investment_expenditure"
                 = get ca "investment_expenditure")
    by (apply get_update_totals_other; discriminate).
  rewrite Hcur in Hq.
  exists (alloc_value (vars_of p) Value "investment_expenditure").
  split; [apply Hres; in_categories|].
  intros k Hk Hd.
  rewrite <- Hcur in Hd at 2. rewrite <- Hcur in Hd at 1.
  destruct (investment_can_move _ _ _ _ _ k Value Hb HV Hk Hd) as [HV' Hobj].
  rewrite Hcur in HV', Hobj.
  specialize (Hleast _ HV').
  apply square_le_abs. rewrite <- Hq.
  remember (quad_value (vars_of p) Value "investment_expenditure") as q.
  remember (item (weights_of p) "investment_expenditure") as w.
  remember ((50 * k - get ca "investment_expenditure")
            * (50 * k - get ca "investment_expenditure")) as q'.
  nia.
Qed.

(** ** Division of two integers *)

Lemma new_location_spec (b r : Z) :
  0 < b -> 0 <= r < b -> new_location b r = location_of_remainder r b.
Proof.
  intros Hb Hr. unfold new_location.
  destruct (Z.even b) eqn:He;
    unfold new_location_even, new_location_odd, location_of_remainder;
    [reflexivity|].
  destruct (r =? 0) eqn:Hr0; [reflexivity|].
  apply Z.eqb_neq in Hr0. f_equal.
  assert (Hodd : Z.odd b = true) by (rewrite <- Z.negb_even, He; reflexivity).
  apply Z.odd_spec in Hodd as [h Hh]. clear He.
  destruct (2 * r ?= b) eqn:Hc.
  - apply Z.compare_eq_iff in Hc. exfalso. lia.
  - change (2 * r < b) in Hc.
    destruct (2 * r + 1 ?= b) eqn:Hc'; try reflexivity.
    apply Z.compare_gt_iff in Hc'. exfalso. lia.
  - apply Z.compare_gt_iff in Hc.
    replace (2 * r + 1 ?= b) with Gt; [reflexivity|].
    symmetry. apply Z.compare_gt_iff. lia.
Qed.

Lemma represents_record_of_loc (q : Z) (l : location) (A D : Z) :
  q = A / D -> l = location_of_remainder (A mod D) D ->
  represents (shr_record_of_loc q l) A D.
Proof.
  intros -> Hl. split.
  - destruct l as [|[ | | ]]; reflexivity.
  - rewrite <- Hl. destruct l as [|[ | | ]]; reflexivity.
Qed.

Lemma shr_1_represents (mrs : shr_record) (A D : Z) :
  0 <= A -> 0 < D ->
  represents mrs A D -> represents (shr_1 mrs) A (2 * D).
Proof.
  intros HA HD [Hq Hl].
  pose proof (Z.div_mod A D ltac:(lia)) as Hdm.
  pose proof (Z.mod_pos_bound A D HD) as Hrk.
  assert (Hq0 : 0 <= A / D) by (apply Z.div_pos; lia).
  assert (Hdiv : A / (2 * D) = A / D / 2).
  { rewrite Z.mul_comm, <- Z.div_div by lia. reflexivity. }
  unfold represents, location_of_remainder in *. rewrite Hdiv. clear Hdiv.
  remember (A / D) as q eqn:Eq. remember (A mod D) as r eqn:Er.
  clear Eq Er.
  pose proof (Z.div_mod q 2 ltac:(lia)) as Hq2.
  pose proof (Zmod_odd q) as Hodd.
  assert (Hmod : A mod (2 * D) = (q mod 2) * D + r).
  { symmetry. apply Z.mod_unique_pos with (q := q / 2).
    - destruct (Z.odd q); rewrite Hodd; lia.
    - remember (q / 2) as h. remember (q mod 2) as b. lia. }
  rewrite Hmod, Hodd. clear Hmod Hq2 Hodd.
  destruct mrs as [m0 r0 s0]. cbn [shr_m] in Hq. subst m0.
  rewrite (shr_1_fields q r0 s0 Hq0). cbn [shr_m]. split; [reflexivity|].
  assert (Hs : orb r0 s0 = negb (r =? 0)).
  { destruct (r =? 0), r0, s0; cbn in Hl; try discriminate Hl; reflexivity. }
  rewrite Hs. clear Hs Hl.
  destruct (Z.odd q), (r =? 0) eqn:Hr0; cbn [loc_of_shr_record negb];
    [apply Z.eqb_eq in Hr0 | apply Z.eqb_neq in Hr0
     | apply Z.eqb_eq in Hr0 | apply Z.eqb_neq in Hr0].
  - replace (1 * D + r =? 0) with false by (symmetry; apply Z.eqb_neq; lia).
    f_equal. symmetry. apply Z.compare_eq_iff. lia.
  - replace (1 * D + r =? 0) with false by (symmetry; apply Z.eqb_neq; lia).
    f_equal. symmetry. apply Z.compare_gt_iff. lia.
  - replace (0 * D + r =? 0) with true by (symmetry; apply Z.eqb_eq; lia).
    reflexivity.
  - replace (0 * D + r =? 0) with false by (symmetry; apply Z.eqb_neq; lia).
    f_equal. symmetry. apply Z.compare_lt_iff. lia.
Qed.

(** [round_half_even_div a b] is the integer [n] with
    [n - 1/2 <= a / b <= n + 1/2] that is even when [a / b] is half-way. *)
Lemma round_half_even_div_spec (a b : Z) :
  0 < b ->
  let n := round_half_even_div a b in
  (2 * n - 1) * b <= 2 * a <= (2 * n + 1) * b
  /\ (2 * a = (2 * n - 1) * b -> Z.even n = true)
  /\ (2 * a = (2 * n + 1) * b -> Z.even n = true).
Proof.
  intros Hb n. subst n. unfold round_half_even_div, location_of_remainder.
  pose proof (Z.div_mod a b ltac:(lia)) as Hdm.
  pose proof (Z.mod_pos_bound a b Hb) as Hr.
  remember (a / b) as q eqn:Eq. remember (a mod b) as r eqn:Er. clear Eq Er.
  subst a.
  destruct (r =? 0) eqn:Hr0;
    [apply Z.eqb_eq in Hr0 | apply Z.eqb_neq in Hr0].
  - cbn [round_nearest_even]. subst r. repeat split; nia.
  - destruct (2 * r ?= b) eqn:Hc; cbn [round_nearest_even].
    + apply Z.compare_eq_iff in Hc.
      destruct (Z.even q) eqn:He.
      * repeat split; try nia. intros _. exact He.
      * assert (He' : Z.even (q + 1) = true).
        { rewrite Z.even_add, He. reflexivity. }
        repeat split; try nia. intros _. exact He'.
    + change (2 * r < b) in Hc. repeat split; nia.
    + apply Z.compare_gt_iff in Hc. repeat split; nia.
Qed.

Lemma round_half_even_div_unique (a b n : Z) :
  0 < b ->
  (2 * n - 1) * b <= 2 * a <= (2 * n + 1) * b ->
  (2 * a = (2 * n - 1) * b -> Z.even n = true) ->
  (2 * a = (2 * n + 1) * b -> Z.even n = true) ->
  round_half_even_div a b = n.
Proof.
  intros Hb Hn Hlo Hhi.
  destruct (round_half_even_div_spec a b Hb) as (Hm & Hmlo & Hmhi).
  remember (round_half_even_div a b) as m eqn:Em. clear Em.
  destruct (Z.lt_trichotomy m n) as [Hlt|[Heq|Hgt]]; [|exact Heq|]; exfalso.
  - assert (Hn1 : n = m + 1) by nia. subst n.
    assert (E : 2 * a = (2 * m + 1) * b) by nia.
    specialize (Hmhi E).
    assert (E' : 2 * a = (2 * (m + 1) - 1) * b) by nia.
    specialize (Hlo E'). rewrite Z.even_add, Hmhi in Hlo. discriminate Hlo.
  - assert (Hn1 : m = n + 1) by nia. subst m.
    assert (E : 2 * a = (2 * n + 1) * b) by nia.
    specialize (Hhi E).
    assert (E' : 2 * a = (2 * (n + 1) - 1) * b) by nia.
    specialize (Hmlo E'). rewrite Z.even_add, Hhi in Hmlo. discriminate Hmlo.
Qed.

Lemma round_half_even_div_scale (a b c : Z) :
  0 < b -> 0 < c ->
  round_half_even_div (a * c) (b * c) = round_half_even_div a b.
Proof.
  intros Hb Hc.
  destruct (round_half_even_div_spec a b Hb) as (Hm & Hmlo & Hmhi).
  apply round_half_even_div_unique; [nia | nia | |].
  - intros E. apply Hmlo. nia.
  - intros E. apply Hmhi. nia.
Qed.

(** Rounding is monotone in the rational. *)
Lemma round_half_even_div_le (a b a' b' : Z) :
  0 < b -> 0 < b' -> a * b' <= a' * b ->
  round_half_even_div a b <= round_half_even_div a' b'.
Proof.
  intros Hb Hb' Hle.
  destruct (round_half_even_div_spec a b Hb) as (Hn & Hnlo & _).
  destruct (round_half_even_div_spec a' b' Hb') as (Hn' & _ & Hnhi').
  remember (round_half_even_div a b) as n eqn:En. clear En.
  remember (round_half_even_div a' b') as n' eqn:En'. clear En'.
  destruct (Z_le_gt_dec n n') as [H|H]; [exact H|exfalso].
  assert (Hbb : 0 < b * b') by nia.
  assert (H1 : (2 * n - 1) * (b * b') <= 2 * a * b') by nia.
  assert (H2 : 2 * a' * b <= (2 * n' + 1) * (b * b')) by nia.
  assert (H3 : (2 * n' + 1) * (b * b') <= (2 * n - 1) * (b * b')) by nia.
  assert (E1 : 2 * a * b' = (2 * n - 1) * (b * b')) by lia.
  assert (E2 : 2 * a' * b = (2 * n' + 1) * (b * b')) by lia.
  assert (E3 : (2 * n' + 1) * (b * b') = (2 * n - 1) * (b * b')) by lia.
  assert (E4 : n = n' + 1) by nia. subst n.
  assert (Ea : 2 * a = (2 * (n' + 1) - 1) * b) by nia.
  assert (Ea' : 2 * a' = (2 * n' + 1) * b') by nia.
  specialize (Hnlo Ea). specialize (Hnhi' Ea').
  rewrite Z.even_add, Hnhi' in Hnlo. discriminate Hnlo.
Qed.

(** Rounding to a grid of step [1 / T] first does not change the nearest
    integer when the grid is finer than [1 / b]. *)
Lemma round_half_even_div_twice (a b T : Z) :
  0 < b -> b < T -> Z.even T = true ->
  round_half_even_div (round_half_even_div (a * T) b) T
  = round_half_even_div a b.
Proof.
  intros Hb HT He.
  apply Z.even_spec in He as [h Hh].
  destruct (round_half_even_div_spec a b Hb) as (Hn & Hnlo & Hnhi).
  destruct (round_half_even_div_spec (a * T) b Hb) as (Hm & _ & _).
  remember (round_half_even_div a b) as n eqn:En. clear En.
  remember (round_half_even_div (a * T) b) as m eqn:Em. clear Em.
  assert (HT0 : 0 < T) by lia.
  assert (Hup : 2 * m <= (2 * n + 1) * T).
  { assert ((2 * m - 1) * b <= (2 * n + 1) * T * b) by nia.
    assert (2 * m - 1 <= (2 * n + 1) * T) by nia.
    subst T. lia. }
  assert (Hlo : (2 * n - 1) * T <= 2 * m).
  { assert ((2 * n - 1) * T * b <= (2 * m + 1) * b) by nia.
    assert ((2 * n - 1) * T <= 2 * m + 1) by nia.
    subst T. lia. }
  apply round_half_even_div_unique; [exact HT0 | split; assumption | |].
  - intros E. apply Hnlo.
    destruct (Z.eq_dec (2 * a) ((2 * n - 1) * b)) as [Ha|Ha]; [exact Ha|].
    exfalso.
    assert (Ha' : (2 * n - 1) * b + 1 <= 2 * a) by lia.
    assert (2 * a * T <= (2 * m + 1) * b) by lia.
    assert (((2 * n - 1) * b + 1) * T <= 2 * a * T) by nia.
    nia.
  - intros E. apply Hnhi.
    destruct (Z.eq_dec (2 * a) ((2 * n + 1) * b)) as [Ha|Ha]; [exact Ha|].
    exfalso.
    assert (Ha' : 2 * a + 1 <= (2 * n + 1) * b) by lia.
    assert ((2 * m - 1) * b <= 2 * a * T) by lia.
    assert ((2 * a + 1) * T <= (2 * n + 1) * b * T) by nia.
    nia.
Qed.

Lemma div_eucl_div_mod (x y : Z) : Z.div_eucl x y = (x / y, x mod y).
Proof. unfold Z.div, Z.modulo. destruct (Z.div_eucl x y). reflexivity. Qed.

Lemma record_of_loc_fields (m : Z) (l : location) :
  shr_m (shr_record_of_loc m l) = m
  /\ loc_of_shr_record (shr_record_of_loc m l) = l.
Proof. destruct l as [|[ | | ]]; split; reflexivity. Qed.

(** The quotient and the exponent that the division of the integer [a]
    by the integer [b] hands to the rounding: [a] is scaled so that the
    quotient has 53 or 54 digits. *)
Lemma SFdiv_core_integers (pa pb : positive) :
  let s := 53 + Zdigits2 (Z.pos pb) - Zdigits2 (Z.pos pa) in
  Zdigits2 (Z.pos pa) <= 52 ->
  Zdigits2 (Z.pos pb) - Zdigits2 (Z.pos pa) <= 1021 ->
  SFdiv_core_binary 53 1024 (Z.pos pa) 0 (Z.pos pb) 0
  = ((Z.pos pa * 2 ^ s) / Z.pos pb, - s,
     location_of_remainder ((Z.pos pa * 2 ^ s) mod Z.pos pb) (Z.pos pb))
  /\ 2 ^ 52 <= (Z.pos pa * 2 ^ s) / Z.pos pb < 2 ^ 54.
Proof.
  intros s H1 H2.
  pose proof (Zdigits2_bounds pa) as Ha. pose proof (Zdigits2_bounds pb) as Hb.
  remember (Zdigits2 (Z.pos pa)) as d1 eqn:E1.
  remember (Zdigits2 (Z.pos pb)) as d2 eqn:E2.
  assert (Hd1 : 1 <= d1).
  { subst d1. rewrite Zdigits2_log2. pose proof (Z.log2_nonneg (Z.pos pa)). lia. }
  assert (Hd2 : 1 <= d2).
  { subst d2. rewrite Zdigits2_log2. pose proof (Z.log2_nonneg (Z.pos pb)). lia. }
  assert (Hs : 0 < s) by (unfold s; lia).
  split.
  - unfold SFdiv_core_binary. rewrite <- E1, <- E2, !Z.add_0_r.
    rewrite fexp_normal by lia.
    rewrite Z.min_l by lia.
    replace (0 - 0 - (d1 - d2 - 53)) with s by (unfold s; lia).
    replace (d1 - d2 - 53) with (- s) by (unfold s; lia).
    destruct s as [|ps|ps] eqn:Es; [lia| |lia].
    rewrite Z.shiftl_mul_pow2 by lia.
    rewrite div_eucl_div_mod.
    rewrite new_location_spec; [reflexivity | lia |].
    apply Z.mod_pos_bound. lia.
  - assert (Hp1 : 2 ^ (d1 - 1) * 2 ^ s = 2 ^ 52 * 2 ^ d2).
    { rewrite <- !Z.pow_add_r by lia. f_equal. unfold s. lia. }
    assert (Hp2 : 2 ^ d1 * 2 ^ s = 2 ^ 54 * 2 ^ (d2 - 1)).
    { rewrite <- !Z.pow_add_r by lia. f_equal. unfold s. lia. }
    assert (Hps : 0 < 2 ^ s) by (apply Z.pow_pos_nonneg; lia).
    split.
    + apply Z.div_le_lower_bound; [lia|]. nia.
    + apply Z.div_lt_upper_bound; [lia|]. nia.
Qed.

(** The second shift of the rounding: a carry to [2 ^ 53] is brought
    back to 53 digits. *)
Lemma shr_fexp_carry (m1 e1 : Z) :
  2 ^ 52 <= m1 <= 2 ^ 53 -> -1074 <= e1 ->
  exists mrs (m : positive) e',
    shr_fexp 53 1024 m1 e1 loc_Exact = (mrs, e')
    /\ shr_m mrs = Z.pos m
    /\ (e' = e1 \/ e' = e1 + 1)
    /\ Z.pos m * 2 ^ (e' - e1) = m1.
Proof.
  intros Hm He. unfold shr_fexp. cbn [shr_record_of_loc].
  destruct (Z.eq_dec m1 (2 ^ 53)) as [Hc|Hc].
  - rewrite (Zdigits2_unique m1 54 ltac:(lia))
      by (rewrite Hc; split; [apply Z.le_refl | reflexivity]).
    rewrite fexp_normal by lia.
    replace (54 + e1 - 53 - e1) with 1 by lia.
    destruct (shr_spec m1 e1 1 ltac:(lia) ltac:(lia)) as (mrs' & -> & Hm' & _).
    exists mrs', (2 ^ 52)%positive, (e1 + 1).
    split; [reflexivity|]. split; [rewrite Hm', Hc; reflexivity|].
    split; [right; reflexivity|].
    replace (e1 + 1 - e1) with 1 by lia. rewrite Hc. reflexivity.
  - rewrite (Zdigits2_unique m1 53 ltac:(lia)) by (change (53 - 1) with 52; lia).
    rewrite fexp_normal by lia.
    replace (53 + e1 - 53 - e1) with 0 by lia.
    cbn [shr].
    destruct m1 as [|p|p] eqn:Hm1; [lia| |lia].
    exists (Build_shr_record (Z.pos p) false false), p, e1.
    split; [reflexivity|]. split; [reflexivity|]. split; [left; reflexivity|].
    replace (e1 - e1) with 0 by lia. lia.
Qed.

(** Rounding a quotient of 53 or 54 digits: the result is finite and its
    mantissa is the quotient of [A] by [D * 2 ^ n], rounded to the nearest
    integer, for the [n] that leaves 53 digits. *)
Lemma binary_round_aux_quotient (sx : bool) (A D e : Z) :
  0 < D -> 2 ^ 52 <= A / D < 2 ^ 54 -> -1074 <= e -> e <= 0 ->
  exists (n : Z) (m : positive) (e' : Z),
    (n = 0 \/ n = 1)
    /\ binary_round_aux 53 1024 sx (A / D) e
         (location_of_remainder (A mod D) D)
       = S754_finite sx m e'
    /\ (e' = e + n \/ e' = e + n + 1)
    /\ Z.pos m * 2 ^ (e' - (e + n)) = round_half_even_div A (D * 2 ^ n).
Proof.
  intros HD Hq He He0.
  assert (HA : 0 <= A).
  { destruct (Z_lt_le_dec A 0) as [Hneg|Hpos]; [|exact Hpos].
    pose proof (Z.div_lt_upper_bound A D 0 HD ltac:(lia)). lia. }
  unfold binary_round_aux.
  assert (Hstep : exists n mrs,
             (n = 0 \/ n = 1)
             /\ shr_fexp 53 1024 (A / D) e (location_of_remainder (A mod D) D)
                = (mrs, e + n)
             /\ represents mrs A (D * 2 ^ n)
             /\ 2 ^ 52 <= A / (D * 2 ^ n) < 2 ^ 53).
  { unfold shr_fexp.
    pose proof (represents_record_of_loc (A / D)
                  (location_of_remainder (A mod D) D) A D eq_refl eq_refl) as Hrep.
    destruct (Z_lt_le_dec (A / D) (2 ^ 53)) as [Hlt|Hge].
    - rewrite (Zdigits2_unique (A / D) 53 ltac:(lia))
        by (change (53 - 1) with 52; lia).
      rewrite fexp_normal by lia.
      replace (53 + e - 53 - e) with 0 by lia. cbn [shr].
      exists 0, (shr_record_of_loc (A / D) (location_of_remainder (A mod D) D)).
      change (2 ^ 0) with 1. rewrite Z.mul_1_r, Z.add_0_r.
      split; [left; reflexivity|]. split; [reflexivity|].
      split; [exact Hrep | lia].
    - rewrite (Zdigits2_unique (A / D) 54 ltac:(lia))
        by (change (54 - 1) with 53; lia).
      rewrite fexp_normal by lia.
      replace (54 + e - 53 - e) with 1 by lia. cbn [shr SpecFloat.iter_pos].
      exists 1, (shr_1 (shr_record_of_loc (A / D)
                          (location_of_remainder (A mod D) D))).
      change (2 ^ 1) with 2. rewrite (Z.mul_comm D 2).
      split; [right; reflexivity|]. split; [reflexivity|].
      split; [exact (shr_1_represents _ A D HA HD Hrep)|].
      rewrite Z.mul_comm, <- Z.div_div by lia.
      split.
      + apply Z.div_le_lower_bound; lia.
      + apply Z.div_lt_upper_bound; lia. }
  destruct Hstep as (n & mrs & Hn & -> & [Hm Hl] & Hq').
  rewrite Hm, Hl. fold (round_half_even_div A (D * 2 ^ n)).
  pose proof (round_nearest_even_bounds (A / (D * 2 ^ n))
                (location_of_remainder (A mod (D * 2 ^ n)) (D * 2 ^ n))) as Hr.
  fold (round_half_even_div A (D * 2 ^ n)) in Hr.
  remember (round_half_even_div A (D * 2 ^ n)) as m1 eqn:Em1.
  destruct (shr_fexp_carry m1 (e + n) ltac:(lia) ltac:(lia))
    as (mrs' & m & e' & -> & Hm' & He' & Hval).
  rewrite Hm'.
  replace (e' <=? 1024 - 53) with true by (symmetry; apply Z.leb_le; lia).
  exists n, m, e'.
  split; [exact Hn|]. split; [reflexivity|]. split; [exact He'|].
  rewrite Hval. exact Em1.
Qed.

(** [round] of a finite float without an integer exponent part. *)
Lemma round_finite (sx : bool) (m : positive) (e : Z) :
  e <= 0 ->
  PyFloat.round (S754_finite sx m e)
  = inr (cond_Zopp sx (round_half_even_div (Z.pos m) (2 ^ (- e)))).
Proof.
  intros He. unfold PyFloat.round, round_half_even_div, location_of_remainder.
  destruct e as [|p|p]; [| lia |].
  - change (2 ^ (- 0)) with 1.
    rewrite Z.div_1_r, Z.mod_1_r, Z.mul_1_r. reflexivity.
  - change (- Z.neg p) with (Z.pos p). cbv zeta.
    assert (Hd : 0 < 2 ^ Z.pos p) by (apply Z.pow_pos_nonneg; lia).
    pose proof (Z.mod_pos_bound (Z.pos m) (2 ^ Z.pos p) Hd) as Hr.
    remember (Z.pos m mod 2 ^ Z.pos p) as r eqn:Er. clear Er.
    remember (Z.pos m / 2 ^ Z.pos p) as q eqn:Eq. clear Eq.
    remember (2 ^ Z.pos p) as d eqn:Ed. clear Ed.
    do 2 f_equal.
    destruct (r =? 0) eqn:Hr0.
    + apply Z.eqb_eq in Hr0. subst r.
      change (2 * 0) with 0. destruct d; [lia | reflexivity | lia].
    + destruct (2 * r ?= d); reflexivity.
Qed.

(** The quotient of two positive integers, the dividend below [2 ^ 52]:
    the float is finite, and rounding it to an integer gives the integer
    nearest to the exact quotient. *)
Lemma SFdiv_integers (sa sb : bool) (pa pb : positive) :
  Z.pos pa < 2 ^ 52 -> Z.pos pb < 2 ^ 1022 ->
  exists (m : positive) (e : Z),
    SFdiv 53 1024 (S754_finite sa pa 0) (S754_finite sb pb 0)
    = S754_finite (xorb sa sb) m e
    /\ e <= 0
    /\ round_half_even_div (Z.pos m) (2 ^ (- e))
       = round_half_even_div (Z.pos pa) (Z.pos pb).
Proof.
  intros Ha Hb.
  pose proof (Zdigits2_bounds pa) as Hda. pose proof (Zdigits2_bounds pb) as Hdb.
  assert (Hd1 : 1 <= Zdigits2 (Z.pos pa) <= 52).
  { split.
    - rewrite Zdigits2_log2. pose proof (Z.log2_nonneg (Z.pos pa)). lia.
    - destruct (Z_le_gt_dec (Zdigits2 (Z.pos pa)) 52) as [H|H]; [exact H|].
      exfalso.
      assert (2 ^ 52 <= 2 ^ (Zdigits2 (Z.pos pa) - 1))
        by (apply Z.pow_le_mono_r; lia).
      lia. }
  assert (Hd2 : 1 <= Zdigits2 (Z.pos pb) <= 1022).
  { split.
    - rewrite Zdigits2_log2. pose proof (Z.log2_nonneg (Z.pos pb)). lia.
    - destruct (Z_le_gt_dec (Zdigits2 (Z.pos pb)) 1022) as [H|H]; [exact H|].
      exfalso.
      assert (2 ^ 1022 <= 2 ^ (Zdigits2 (Z.pos pb) - 1))
        by (apply Z.pow_le_mono_r; lia).
      lia. }
  destruct (SFdiv_core_integers pa pb ltac:(lia) ltac:(lia)) as [Hcore Hq].
  remember (Zdigits2 (Z.pos pa)) as d1 eqn:E1. clear E1.
  remember (Zdigits2 (Z.pos pb)) as d2 eqn:E2. clear E2.
  cbv zeta in Hcore, Hq.
  remember (53 + d2 - d1) as s eqn:Es.
  unfold SFdiv. rewrite Hcore.
  destruct (binary_round_aux_quotient (xorb sa sb) (Z.pos pa * 2 ^ s) (Z.pos pb)
              (- s) ltac:(lia) Hq ltac:(lia) ltac:(lia))
    as (n & m & e' & Hn & -> & He' & Hval).
  exists m, e'. split; [reflexivity|].
  assert (Ht : 1 <= s - n /\ d2 <= s - n) by lia.
  remember (s - n) as t eqn:Et.
  assert (Hm1 : round_half_even_div (Z.pos pa * 2 ^ s) (Z.pos pb * 2 ^ n)
                = round_half_even_div (Z.pos pa * 2 ^ t) (Z.pos pb)).
  { replace s with (t + n) by lia.
    rewrite Z.pow_add_r, Z.mul_assoc by lia.
    apply round_half_even_div_scale; [lia|]. apply Z.pow_pos_nonneg; lia. }
  rewrite Hm1 in Hval. clear Hm1.
  assert (Hfinal : round_half_even_div
                     (round_half_even_div (Z.pos pa * 2 ^ t) (Z.pos pb)) (2 ^ t)
                   = round_half_even_div (Z.pos pa) (Z.pos pb)).
  { apply round_half_even_div_twice; [lia | |].
    - assert (2 ^ d2 <= 2 ^ t) by (apply Z.pow_le_mono_r; lia). lia.
    - replace t with (1 + (t - 1)) by lia.
      rewrite Z.pow_add_r by lia. change (2 ^ 1) with 2.
      rewrite Z.even_mul. reflexivity. }
  rewrite <- Hfinal, <- Hval.
  split; [lia|].
  destruct He' as [He'|He']; subst e'.
  - replace (- s + n - (- s + n)) with 0 by lia.
    replace (- (- s + n)) with t by lia.
    change (2 ^ 0) with 1. rewrite Z.mul_1_r. reflexivity.
  - replace (- s + n + 1 - (- s + n)) with 1 by lia.
    replace (- (- s + n + 1)) with (t - 1) by lia.
    change (2 ^ 1) with 2.
    replace (2 ^ t) with (2 ^ (t - 1) * 2).
    + symmetry. apply round_half_even_div_scale; [|lia].
      apply Z.pow_pos_nonneg; lia.
    + rewrite Z.mul_comm, <- Z.pow_succ_r by lia. f_equal. lia.
Qed.

Lemma round_half_even_div_nonneg (a b : Z) :
  0 <= a -> 0 < b -> 0 <= round_half_even_div a b.
Proof.
  intros Ha Hb.
  pose proof (round_nearest_even_bounds (a / b)
                (location_of_remainder (a mod b) b)) as Hr.
  fold (round_half_even_div a b) in Hr.
  pose proof (Z.div_pos a b Ha Hb). lia.
Qed.

Lemma round_half_even_div_zero (b : Z) :
  0 < b -> round_half_even_div 0 b = 0.
Proof.
  intros Hb. unfold round_half_even_div.
  rewrite Z.div_0_l, Z.mod_0_l by lia. reflexivity.
Qed.

(** ** The weight of a category *)

Lemma weight_nonnegative (scale current_val : Z) :
  0 <= scale < 2 ^ 52 -> 0 <= current_val < 2 ^ 1000 ->
  weight scale current_val
  = inr (Z.max 1 (round_half_even_div scale (current_val + 1))).
Proof.
  intros Hs Hc. unfold weight, PyFloat.truediv, PyFloat.prec, PyFloat.emax.
  assert (H1000 : 2 ^ 1000 < 2 ^ 1022) by (apply Z.pow_lt_mono_r; lia).
  replace (current_val + 1 =? 0) with false by (symmetry; apply Z.eqb_neq; lia).
  destruct (current_val + 1) as [|pb|pb] eqn:Eb; [lia| |lia].
  destruct scale as [|pa|pa]; [| |lia].
  - cbn [PyFloat.exact SFdiv bindE PyFloat.round].
    rewrite round_half_even_div_zero by lia. reflexivity.
  - cbn [PyFloat.exact].
    destruct (SFdiv_integers false false pa pb ltac:(lia) ltac:(lia))
      as (m & e & -> & He & Hr).
    cbn [xorb bindE]. rewrite (round_finite false m e He).
    cbn [bindE cond_Zopp]. rewrite Hr. reflexivity.
Qed.

Lemma weight_negative (scale current_val : Z) :
  0 <= scale < 2 ^ 52 -> - 2 ^ 1000 < current_val < -1 ->
  weight scale current_val = inr 1.
Proof.
  intros Hs Hc. unfold weight, PyFloat.truediv, PyFloat.prec, PyFloat.emax.
  assert (H1000 : 2 ^ 1000 < 2 ^ 1022) by (apply Z.pow_lt_mono_r; lia).
  replace (current_val + 1 =? 0) with false by (symmetry; apply Z.eqb_neq; lia).
  destruct (current_val + 1) as [|pb|pb] eqn:Eb; [lia|lia|].
  destruct scale as [|pa|pa]; [| |lia].
  - reflexivity.
  - cbn [PyFloat.exact].
    destruct (SFdiv_integers false true pa pb ltac:(lia) ltac:(lia))
      as (m & e & -> & He & Hr).
    cbn [xorb bindE]. rewrite (round_finite true m e He).
    cbn [bindE cond_Zopp]. rewrite Hr.
    pose proof (round_half_even_div_nonneg (Z.pos pa) (Z.pos pb)
                  ltac:(lia) ltac:(lia)).
    f_equal. lia.
Qed.

Lemma weight_computable (scale current_val : Z) :
  0 <= scale < 2 ^ 52 -> 0 <= current_val < 2 ^ 1000 ->
  is_inr (weight scale current_val) = true.
Proof.
  intros Hs Hc. rewrite (weight_nonnegative _ _ Hs Hc). reflexivity.
Qed.

(** X9: for a scale from 0 to below [2 ^ 52] and a current value that is
    not negative, the weight is computed without an error and is exactly
    [max(1, n)] for the integer [n] nearest to the rational
    [scale / (current_val + 1)], ties to even: neither the rounding of the
    float division nor [round] on the float loses anything. *)
Theorem weight_is_the_rounded_quotient (scale current_val : Z) :
  0 <= scale < 2 ^ 52 -> 0 <= current_val < 2 ^ 1000 ->
  weight scale current_val
  = inr (Z.max 1 (round_half_even_div scale (current_val + 1))).
Proof. exact (weight_nonnegative scale current_val). Qed.

(** X10: a negative current value other than [-1] (with supplied values
    that are not negative only the derived total_wants can be one) raises
    nothing and gets the weight 1, whatever the scale. *)
Theorem weight_of_a_negative_value_is_1 (scale current_val : Z) :
  0 <= scale < 2 ^ 52 -> - 2 ^ 1000 < current_val < -1 ->
  weight scale current_val = inr 1.
Proof. exact (weight_negative scale current_val). Qed.

(** X11: a lower current allocation never gets a lower weight, and a
    larger scale never gives a lower weight: the weight is monotone in
    the scale and antitone in the current value. *)
Theorem lower_allocation_higher_weight (scale1 scale2 val1 val2 : Z) :
  0 <= scale1 <= scale2 -> scale2 < 2 ^ 52 ->
  0 <= val2 <= val1 -> val1 < 2 ^ 1000 ->
  exists w1 w2,
    weight scale1 val1 = inr w1
    /\ weight scale2 val2 = inr w2
    /\ w1 <= w2.
Proof.
  intros Hs Hs2 Hv Hv1.
  rewrite (weight_nonnegative scale1 val1) by lia.
  rewrite (weight_nonnegative scale2 val2) by lia.
  eexists. eexists. split; [reflexivity|]. split; [reflexivity|].
  apply Z.max_le_compat_l.
  apply round_half_even_div_le; nia.
Qed.

(** X12: the weight is 1 exactly when the current value plus one exceeds
    two thirds of the scale: all the larger categories weigh the same. *)
Theorem weight_is_1_from_two_thirds_of_scale (scale current_val : Z) :
  0 <= scale < 2 ^ 52 -> 0 <= current_val < 2 ^ 1000 ->
  weight scale current_val = inr 1
  <-> 2 * scale < 3 * (current_val + 1).
Proof.
  intros Hs Hc. rewrite (weight_nonnegative _ _ Hs Hc).
  destruct (round_half_even_div_spec scale (current_val + 1) ltac:(lia))
    as (Hn & Hlo & Hhi).
  remember (round_half_even_div scale (current_val + 1)) as n eqn:En. clear En.
  split.
  - intros H. injection H as H.
    assert (Hn1 : n <= 1) by lia.
    destruct (Z.eq_dec (2 * scale) (3 * (current_val + 1))) as [E|E]; [|nia].
    exfalso.
    assert (n = 1) by nia. subst n.
    specialize (Hhi ltac:(lia)). discriminate Hhi.
  - intros H. f_equal.
    assert (n <= 1) by nia. lia.
Qed.

(** ** Inputs on which a solution is returned *)

(** The call reaches the solver when the weights are computed, the
    square of the income and the current values are 64-bit integers and
    the hard bounds are computed. *)
Lemma prepare_total ca income scale :
  (forall cat, cat ∈ categories -> is_inr (weight scale (get ca cat)) = true) ->
  0 <= income -> income ^ 2 <= 2 ^ 63 - 1 ->
  (forall cat, cat ∈ categories -> in_int64 (get ca cat) = true) ->
  exists p, prepare ca income scale = inr p.
Proof.
  intros Hw Hpos Hsq Hget.
  assert (Hi : income <= 2 ^ 63 - 1) by (rewrite Z.pow_2_r in Hsq; nia).
  assert (Hincome : 0 <= income < 2 ^ 50).
  { split; [exact Hpos|].
    assert (Hs : in_int64 (income ^ 2) = true).
    { apply in_int64_spec. pose proof (Z.pow_nonneg income 2 Hpos). lia. }
    apply square_fits_income in Hs.
    assert (2 ^ 32 < 2 ^ 50) by (apply Z.pow_lt_mono_r; lia). lia. }
  pose proof (fraction_0_2 income Hincome) as Hsf.
  pose proof (fraction_0_5 income Hincome) as Hnc.
  pose proof (fraction_0_3 income Hincome) as Hwc.
  pose proof (Z.pow_nonneg income 2 Hpos) as Hsq0.
  pose proof (Z.div_pos income 10 Hpos ltac:(lia)) as D10.
  pose proof (Z.mul_div_le income 10 ltac:(lia)) as D10'.
  pose proof (Z.div_pos income 50 Hpos ltac:(lia)) as D50.
  pose proof (Z.mul_div_le income 50 ltac:(lia)) as D50'.
  pose proof (Z.div_pos income 5 Hpos ltac:(lia)) as D5.
  pose proof (Z.mul_div_le income 5 ltac:(lia)) as D5'.
  pose proof (Z.div_pos income 2 Hpos ltac:(lia)) as D2.
  pose proof (Z.mul_div_le income 2 ltac:(lia)) as D2'.
  pose proof (Z.div_pos (3 * income) 10 ltac:(lia) ltac:(lia)) as D3.
  pose proof (Z.mul_div_le (3 * income) 10 ltac:(lia)) as D3'.
  destruct (weights_loop_total ca scale categories Hw (∅ : gmap string Z))
    as (ws & Hws).
  destruct (build_model ca ws income empty_model) as [e|[vs m]] eqn:Hb.
  - exfalso. unfold_build Hb. rewrite Hsf, Hnc, Hwc in Hb.
    pass_checks Hb
      ltac:(repeat match goal with
                   | |- _ && _ = true => apply andb_true_intro; split
                   end;
            first [ assumption
                  | apply Hget; in_categories
                  | apply in_int64_spec; lia
                  | reflexivity ]).
    discriminate Hb.
  - exists (mkPrepared ws vs m).
    unfold prepare, compute_weights. rewrite Hws. cbn [bindE]. rewrite Hb.
    reflexivity.
Qed.

(** The objective of a satisfying assignment is not negative, and it is 0
    only when no allocation differs from the current value. *)
Lemma objective_nonneg ca income scale p Value :
  prepare ca income scale = inr p ->
  satisfies (model_of p) Value ->
  0 <= eval Value (objective (model_of p))
  /\ (eval Value (objective (model_of p)) <= 0 ->
      forall cat, cat ∈ categories ->
                  alloc_value (vars_of p) Value cat = get ca cat
                  /\ quad_value (vars_of p) Value cat = 0).
Proof.
  intros Hp HV.
  apply prepare_inv in Hp as (Hws & Hb).
  pose proof (compute_weights_inv _ _ _ Hws) as Hw.
  destruct (build_model_inv _ _ _ _ _ Hb) as (sf & nc & wc & _ & _ & _ & Hm).
  destruct (Hm Value) as (Hfacts & Hobj).
  destruct (Hfacts HV) as (Hcat & _).
  assert (Hterm : forall cat, cat ∈ categories ->
                    0 <= quad_value (vars_of p) Value cat
                         * item (weights_of p) cat).
  { intros cat Hin.
    pose proof (categories_cases _ Hcat cat Hin) as [_ _ _ _ Hq].
    destruct (Hw cat Hin) as [_ H1]. nia. }
  destruct (foldl_sum_nonneg _ categories Hterm 0 ltac:(lia)) as [Hle Hz].
  rewrite Hobj. split; [exact Hle|].
  intros H0 cat Hin.
  pose proof (Hz ltac:(lia) cat Hin) as Hq0. cbv beta in Hq0.
  pose proof (categories_cases _ Hcat cat Hin) as [_ _ _ Hq Hqr].
  destruct (Hw cat Hin) as [_ H1].
  assert (Hq00 : quad_value (vars_of p) Value cat = 0) by nia.
  split; [|exact Hq00].
  rewrite Hq00 in Hq. symmetry in Hq. apply Z.mul_eq_0 in Hq. lia.
Qed.

(** When the model has a satisfying assignment, a solver that keeps its
    contract and finishes its search answers OPTIMAL, and the function
    returns what it extracts. *)
Lemma feasible_model_is_solved Solve ca scale p V0 :
  SolverSoundFor Solve ca scale ->
  SolverCompleteFor Solve ca scale ->
  prepare (update_totals ca) (get ca "monthly_take_home") scale = inr p ->
  satisfies (model_of p) V0 ->
  exists Value res loss,
    satisfies (model_of p) Value
    /\ eval Value (objective (model_of p)) <= eval V0 (objective (model_of p))
    /\ extract p (OPTIMAL, Value) = Some (res, loss)
    /\ optimize Solve ca scale = (update_totals ca, Returns (Some (res, loss))).
Proof.
  intros Hsound Hcomplete Hp HV0.
  specialize (Hsound p Hp). specialize (Hcomplete p Hp).
  unfold optimize. cbv zeta. rewrite Hp.
  destruct (Solve (model_of p)) as [st Value].
  destruct Hcomplete as [Hst|Hst]; cbn [fst] in Hst; subst st.
  - pose proof (solution_satisfies _ _ Hsound eq_refl) as HV.
    pose proof (optimal_is_least _ _ Hsound eq_refl _ HV0) as Hle.
    cbn [snd] in HV, Hle.
    destruct (extract p (OPTIMAL, Value)) as [[res loss]|] eqn:He;
      [|discriminate He].
    exists Value, res, loss.
    split; [exact HV|]. split; [exact Hle|]. split; [exact He | reflexivity].
  - exfalso. exact (infeasible_is_final _ _ Hsound eq_refl _ HV0).
Qed.

Lemma current_totals_bounds ca :
  (forall cat, cat ∈ supplied_categories -> 0 <= get ca cat) ->
  current_total_needs ca + get ca "monthly_savings"
  <= get ca "monthly_take_home" ->
  (forall cat, cat ∈ categories -> cat <> "investment_expenditure"%string ->
               0 <= get (update_totals ca) cat <= get ca "monthly_take_home")
  /\ get (update_totals ca) "investment_expenditure"
     = get ca "investment_expenditure".
Proof.
  intros Hpos Hsum.
  assert (Hs : forall cat, cat ∈ supplied_categories -> 0 <= get ca cat)
    by exact Hpos.
  pose proof (Hs "transport_expenditure"%string
                ltac:(unfold supplied_categories; repeat constructor)).
  pose proof (Hs "food_expenditure"%string
                ltac:(unfold supplied_categories; repeat constructor)).
  pose proof (Hs "housing_expenditure"%string
                ltac:(unfold supplied_categories; repeat constructor)).
  pose proof (Hs "insurance_expenditure"%string
                ltac:(unfold supplied_categories; repeat constructor)).
  pose proof (Hs "other_needs_expenditure"%string
                ltac:(unfold supplied_categories; repeat constructor)).
  pose proof (Hs "monthly_savings"%string
                ltac:(unfold supplied_categories; repeat constructor)).
  clear Hs Hpos.
  split; [|apply get_update_totals_other; discriminate].
  intros cat Hin Hne. unfold categories in Hin.
  unfold current_total_needs, needs_categories in Hsum. cbn [foldl] in Hsum.
  repeat (apply elem_of_cons in Hin as [->|Hin];
          [first [ rewrite get_update_totals_needs;
                   unfold current_total_needs, needs_categories; cbn [foldl]; lia
                 | rewrite get_update_totals_wants;
                   unfold current_total_wants, current_total_needs,
                     needs_categories; cbn [foldl]; lia
                 | exfalso; apply Hne; reflexivity
                 | rewrite get_update_totals_other by discriminate; lia ]|]).
  inversion Hin.
Qed.

(** X8: a budget that is within the income gets a solution.  For an
    income that is a multiple of 50, with the largest value of the
    objective (nine terms of at most [max(1, scale) * income ^ 2]) a
    64-bit integer, supplied values that are not negative, needs and
    savings that do not exceed the income and an investment of at most
    twice the income, the call raises nothing and a solver that keeps its
    contract and finishes its search makes it return an allocation, never
    the pair (None, None). *)
Theorem budget_within_income_gets_a_solution Solve ca scale :
  0 <= scale < 2 ^ 52 ->
  0 <= get ca "monthly_take_home" ->
  9 * Z.max 1 scale * get ca "monthly_take_home" ^ 2 <= 2 ^ 63 - 1 ->
  get ca "monthly_take_home" mod 50 = 0 ->
  (forall cat, cat ∈ supplied_categories -> 0 <= get ca cat) ->
  current_total_needs ca + get ca "monthly_savings"
  <= get ca "monthly_take_home" ->
  get ca "investment_expenditure" <= 2 * get ca "monthly_take_home" ->
  SolverSoundFor Solve ca scale ->
  SolverCompleteFor Solve ca scale ->
  exists res loss,
    optimize Solve ca scale = (update_totals ca, Returns (Some (res, loss))).
Proof.
  intros Hscale Hipos Hobj Hmod Hpos Hsum Hinv Hsound Hcomplete.
  destruct (current_totals_bounds ca Hpos Hsum) as [Hcur Hcurinv].
  assert (Hinv0 : 0 <= get ca "investment_expenditure")
    by (apply Hpos; unfold supplied_categories; repeat constructor).
  remember (get ca "monthly_take_home") as income eqn:Ei.
  assert (Hsq0 : 0 <= income ^ 2) by (apply Z.pow_nonneg; lia).
  assert (Hsq : income ^ 2 <= 2 ^ 63 - 1).
  { remember (income ^ 2) as sq. remember (2 ^ 63 - 1) as top.
    assert (1 <= Z.max 1 scale) by lia. nia. }
  assert (Hincome : 0 <= income < 2 ^ 50).
  { split; [exact Hipos|].
    assert (Hs : in_int64 (income ^ 2) = true) by (apply in_int64_spec; lia).
    apply square_fits_income in Hs.
    assert (2 ^ 32 < 2 ^ 50) by (apply Z.pow_lt_mono_r; lia). lia. }
  assert (H50 : 2 ^ 50 < 2 ^ 1000) by (apply Z.pow_lt_mono_r; lia).
  assert (H63 : 2 * 2 ^ 50 < 2 ^ 63)
    by (rewrite <- Z.pow_succ_r by lia; apply Z.pow_lt_mono_r; lia).
  assert (Hw : forall cat, cat ∈ categories ->
                 is_inr (weight scale (get (update_totals ca) cat)) = true).
  { intros cat Hin. apply weight_computable; [exact Hscale|].
    destruct (decide (cat = "investment_expenditure"%string)) as [->|Hne].
    - rewrite Hcurinv. lia.
    - pose proof (Hcur cat Hin Hne). lia. }
  assert (Hfits : forall cat, cat ∈ categories ->
                    in_int64 (get (update_totals ca) cat) = true).
  { intros cat Hin. apply in_int64_spec.
    destruct (decide (cat = "investment_expenditure"%string)) as [->|Hne].
    - rewrite Hcurinv. lia.
    - pose proof (Hcur cat Hin Hne). lia. }
  destruct (prepare_total (update_totals ca) income scale Hw Hipos Hsq Hfits)
    as (p & Hp).
  pose proof Hp as Hp'. apply prepare_inv in Hp' as (_ & Hb).
  set (al := all_to_savings income (get ca "investment_expenditure")).
  assert (Hunits : income = 50 * (income / 50)).
  { pose proof (Z.div_mod income 50 ltac:(lia)). lia. }
  assert (Hdiv10 : 0 <= income / 10) by (apply Z.div_pos; lia).
  assert (Hdiv50 : 0 <= income / 50) by (apply Z.div_pos; lia).
  assert (Hdiv5 : income / 5 <= income).
  { pose proof (Z.mul_div_le income 5 ltac:(lia)). lia. }
  assert (Hdiv2 : 0 <= income / 2) by (apply Z.div_pos; lia).
  assert (Hdiv3 : 0 <= 3 * income / 10) by (apply Z.div_pos; lia).
  destruct (build_model_satisfied _ _ _ _ _ _ _ _
              (fun cat => al cat / 50) al Hb
              (fraction_0_2 income Hincome) (fraction_0_5 income Hincome)
              (fraction_0_3 income Hincome)) as [HV0 _].
  - intros cat Hin.
    destruct (decide (cat = "investment_expenditure"%string)) as [->|Hne].
    + rewrite Hcurinv. subst al. unfold all_to_savings. cbn [String.eqb Ascii.eqb Bool.eqb].
      change (item factors "investment_expenditure") with 50.
      destruct (get ca "investment_expenditure" <=? income) eqn:Hle;
        [apply Z.leb_le in Hle | apply Z.leb_gt in Hle].
      * change (0 / 50) with 0. lia.
      * lia.
    + pose proof (Hcur cat Hin Hne) as Hc.
      unfold categories in Hin. subst al. unfold all_to_savings.
      repeat (apply elem_of_cons in Hin as [->|Hin];
              [first [ exfalso; apply Hne; reflexivity
                     | cbn [String.eqb Ascii.eqb Bool.eqb]; eval_items;
                       change (0 / 50) with 0; lia ]|]).
      inversion Hin.
  - subst al. unfold all_to_savings. split; cbn [String.eqb Ascii.eqb Bool.eqb]; lia.
  - rewrite Ei in Hp.
    destruct (feasible_model_is_solved Solve ca scale p _ Hsound Hcomplete
                Hp HV0) as (Value & res & loss & _ & _ & _ & Hrun).
    exists res, loss. exact Hrun.
Qed.

(** ** Calling the function on its own result *)

Lemma get_as_input_income income res :
  get (as_input income res) "monthly_take_home" = income.
Proof. unfold get, as_input. rewrite lookup_insert_eq. reflexivity. Qed.

Lemma get_as_input_category income res cat v :
  cat <> "monthly_take_home"%string ->
  res !! cat = Some v ->
  get (as_input income res) cat = v.
Proof.
  intros Hne Hv. unfold get, as_input.
  rewrite lookup_insert_ne by congruence.
  rewrite lookup_fmap, Hv. reflexivity.
Qed.

Lemma income_is_no_category cat :
  cat ∈ categories -> cat <> "monthly_take_home"%string.
Proof.
  intros Hin ->. unfold categories in Hin.
  repeat (apply elem_of_cons in Hin as [Hin|Hin]; [discriminate Hin|]).
  inversion Hin.
Qed.

(** Current values that are themselves an admissible allocation satisfy
    the model, with objective 0. *)
Lemma current_values_satisfy x income scale p sf nc wc :
  prepare x income scale = inr p ->
  int_fraction PyFloat.lit_0_2 income = inr sf ->
  int_fraction PyFloat.lit_0_5 income = inr nc ->
  int_fraction PyFloat.lit_0_3 income = inr wc ->
  (forall cat, cat ∈ categories ->
               0 <= get x cat <= income
               /\ get x cat = item factors cat * (get x cat / item factors cat)) ->
  budget_ok income sf nc wc (get x) ->
  satisfies (model_of p)
    (layout_values (fun cat => get x cat / item factors cat) (get x) (get x))
  /\ eval (layout_values (fun cat => get x cat / item factors cat)
             (get x) (get x))
          (objective (model_of p)) = 0
  /\ forall cat, cat ∈ categories ->
                 alloc_value (vars_of p)
                   (layout_values (fun cat => get x cat / item factors cat)
                      (get x) (get x)) cat = get x cat.
Proof.
  intros Hp Hsf Hnc Hwc Hcur Hbud.
  apply prepare_inv in Hp as (_ & Hb).
  destruct (build_model_satisfied _ _ _ _ _ _ _ _
              (fun cat => get x cat / item factors cat) (get x)
              Hb Hsf Hnc Hwc) as [HV0 Hvals]; [|exact Hbud|].
  - intros cat Hin. destruct (Hcur cat Hin) as [Hr Hm].
    split; [|split; [exact Hm | lia]].
    rewrite (factors_step_factor cat Hin) in *. unfold step_factor in *.
    destruct (decide (cat = "transport_expenditure"%string)).
    + split; [apply Z.div_pos; lia | apply Z.div_le_mono; lia].
    + split; [apply Z.div_pos; lia | apply Z.div_le_mono; lia].
  - split; [exact HV0|]. split.
    + destruct (build_model_inv _ _ _ _ _ Hb) as (? & ? & ? & _ & _ & _ & Hm).
      destruct (Hm (layout_values (fun cat => get x cat / item factors cat)
                      (get x) (get x))) as (_ & Hobj).
      rewrite Hobj. apply foldl_sum_zero.
      intros cat Hin. destruct (Hvals cat Hin) as [_ ->]. ring.
    + intros cat Hin. exact (proj1 (Hvals cat Hin)).
Qed.

(** Then the solver that answers with the current values keeps its
    contract and has finished its search. *)
Lemma unchanged_answer_sound x scale sf nc wc :
  int_fraction PyFloat.lit_0_2 (get x "monthly_take_home") = inr sf ->
  int_fraction PyFloat.lit_0_5 (get x "monthly_take_home") = inr nc ->
  int_fraction PyFloat.lit_0_3 (get x "monthly_take_home") = inr wc ->
  (forall cat, cat ∈ categories ->
               0 <= get (update_totals x) cat <= get x "monthly_take_home"
               /\ get (update_totals x) cat
                  = item factors cat
                    * (get (update_totals x) cat / item factors cat)) ->
  budget_ok (get x "monthly_take_home") sf nc wc (get (update_totals x)) ->
  SolverSoundFor (unchanged_answer x) x scale
  /\ SolverCompleteFor (unchanged_answer x) x scale.
Proof.
  intros Hsf Hnc Hwc Hcur Hbud. split.
  - intros p Hp.
    destruct (current_values_satisfy _ _ _ _ _ _ _ Hp Hsf Hnc Hwc Hcur Hbud)
      as (HV0 & Hobj & _).
    split; unfold unchanged_answer; cbn [fst snd].
    + intros _. exact HV0.
    + intros _ Value HV. rewrite Hobj.
      exact (proj1 (objective_nonneg _ _ _ _ _ Hp HV)).
    + intros H. discriminate H.
  - intros p _. left. reflexivity.
Qed.

(** X7: the function applied to its own result returns it unchanged.
    When a call returns an allocation, a second call on that allocation
    (with the same income and scale) raises nothing and returns the same
    allocation with loss 0, for a solver that keeps its contract and
    finishes its search. *)
Theorem a_returned_allocation_is_a_fixed_point
    Solve Solve2 ca scale ca' res loss :
  0 <= scale < 2 ^ 52 ->
  get ca "monthly_take_home" < 2 ^ 1000 ->
  SolverSoundFor Solve ca scale ->
  optimize Solve ca scale = (ca', Returns (Some (res, loss))) ->
  SolverSoundFor Solve2 (as_input (get ca "monthly_take_home") res) scale ->
  SolverCompleteFor Solve2 (as_input (get ca "monthly_take_home") res) scale ->
  (optimize Solve2 (as_input (get ca "monthly_take_home") res) scale).2
  = Returns (Some (res, 0)).
Proof.
  intros Hscale Hinc Hsound H Hsound2 Hcomplete2.
  destruct (returned_solution _ _ _ _ _ _ Hsound H)
    as (ws & sf & nc & wc & al & q & _ & Hsf & Hnc & Hwc & Hres & Hnone
        & Hcat & Hbud & _).
  remember (get ca "monthly_take_home") as income eqn:Ei.
  remember (as_input income res) as x eqn:Ex.
  assert (Hxi : get x "monthly_take_home" = income)
    by (subst x; apply get_as_input_income).
  assert (Hxs : forall cat, cat ∈ categories -> get x cat = al cat).
  { intros cat Hin. subst x.
    exact (get_as_input_category _ _ _ _ (income_is_no_category cat Hin)
             (Hres cat Hin)). }
  assert (Hn : current_total_needs x = al "total_needs").
  { unfold current_total_needs, needs_categories. cbn [foldl].
    rewrite !Hxs by in_categories. destruct Hbud as [Hsum _ _ _ _]. lia. }
  assert (Hw : current_total_wants x = al "total_wants").
  { unfold current_total_wants. rewrite Hn, Hxi.
    rewrite Hxs by in_categories. destruct Hbud as [_ Hsum _ _ _]. lia. }
  assert (Hcur : forall cat, cat ∈ categories ->
                   get (update_totals x) cat = al cat).
  { intros cat Hin. pose proof (Hxs cat Hin) as Hc. unfold categories in Hin.
    repeat (apply elem_of_cons in Hin as [->|Hin];
            [first [ rewrite get_update_totals_needs; exact Hn
                   | rewrite get_update_totals_wants; exact Hw
                   | rewrite get_update_totals_other by discriminate;
                     exact Hc ]|]).
    inversion Hin. }
  assert (Hrange : forall cat, cat ∈ categories ->
                     0 <= get (update_totals x) cat <= income
                     /\ get (update_totals x) cat
                        = item factors cat
                          * (get (update_totals x) cat / item factors cat)).
  { intros cat Hin. rewrite (Hcur cat Hin).
    pose proof (categories_cases _ Hcat cat Hin) as [(k & Hk & Hal) Hr _ _ _].
    split; [exact Hr|].
    assert (Hf : item factors cat <> 0).
    { rewrite (factors_step_factor cat Hin). unfold step_factor.
      destruct (decide (cat = "transport_expenditure"%string)); lia. }
    rewrite Hal at 2. rewrite (Z.mul_comm (item factors cat) k), Z.div_mul by exact Hf.
    exact Hal. }
  assert (Hbud2 : budget_ok income sf nc wc (get (update_totals x))).
  { destruct Hbud as [B1 B2 B3 B4 B5].
    split; rewrite !Hcur by in_categories; assumption. }
  assert (Hweights : forall cat, cat ∈ categories ->
             is_inr (weight scale (get (update_totals x) cat)) = true).
  { intros cat Hin. apply weight_computable; [exact Hscale|].
    destruct (Hrange cat Hin) as [Hr _]. lia. }
  assert (Hipos : 0 <= income).
  { destruct (Hrange "total_needs"%string ltac:(in_categories)) as [Hr _].
    lia. }
  assert (Hsq : income ^ 2 <= 2 ^ 63 - 1).
  { pose proof H as H1. apply optimize_inv in H1 as (p1 & Hp1 & _).
    rewrite <- Ei in Hp1. apply prepare_inv in Hp1 as (_ & Hb1).
    destruct (build_model_fits _ _ _ _ Hb1) as (Hs & _).
    apply in_int64_spec in Hs. lia. }
  assert (Hfits : forall cat, cat ∈ categories ->
                    in_int64 (get (update_totals x) cat) = true).
  { intros cat Hin. destruct (Hrange cat Hin) as [Hr _].
    apply in_int64_spec. rewrite Z.pow_2_r in Hsq.
    remember (get (update_totals x) cat) as v.
    split; [lia | nia]. }
  destruct (prepare_total (update_totals x) income scale Hweights
              Hipos Hsq Hfits) as (p2 & Hp2).
  destruct (current_values_satisfy _ _ _ _ _ _ _ Hp2 Hsf Hnc Hwc Hrange Hbud2)
    as (HV0 & Hobj0 & _).
  rewrite <- Hxi in Hp2 at 1.
  destruct (feasible_model_is_solved Solve2 x scale p2 _ Hsound2 Hcomplete2
              Hp2 HV0) as (Value & res2 & loss2 & HV & Hle & Hex & Hrun).
  rewrite Hobj0 in Hle.
  destruct (objective_nonneg _ _ _ _ _ Hp2 HV) as [_ Hzero].
  specialize (Hzero Hle).
  apply extract_inv in Hex as (_ & Hres2 & Hnone2 & Hloss2).
  rewrite Hrun. cbn [snd]. do 2 f_equal.
  f_equal.
  - apply map_eq. intros key.
    destruct (decide (key ∈ categories)) as [Hin|Hout].
    + rewrite (Hres2 key Hin), (Hres key Hin).
      destruct (Hzero key Hin) as [-> _]. rewrite (Hcur key Hin). reflexivity.
    + rewrite (Hnone2 key Hout), (Hnone key Hout). reflexivity.
  - rewrite Hloss2. apply foldl_sum_zero.
    intros cat Hin. destruct (Hzero cat Hin) as [_ ->]. ring.
Qed.

(** ** The minimum *)

(** X13: the returned loss is the least one.  When the solver keeps its
    contract and finishes its search, no allocation that meets the
    constraints (step multiples, ranges, deviation bounds, the two sums
    and the three hard bounds) has a smaller weighted quadratic loss than
    the returned one. *)
Theorem returned_loss_is_least Solve ca scale ca' res loss :
  SolverSoundFor Solve ca scale ->
  SolverCompleteFor Solve ca scale ->
  optimize Solve ca scale = (ca', Returns (Some (res, loss))) ->
  exists ws sf nc wc,
    compute_weights (update_totals ca) scale = inr ws
    /\ int_fraction PyFloat.lit_0_2 (get ca "monthly_take_home") = inr sf
    /\ int_fraction PyFloat.lit_0_5 (get ca "monthly_take_home") = inr nc
    /\ int_fraction PyFloat.lit_0_3 (get ca "monthly_take_home") = inr wc
    /\ forall al,
        admissible (get ca "monthly_take_home") sf nc wc
                   (get (update_totals ca)) al ->
        loss <= weighted_loss (item ws) (get (update_totals ca)) al.
Proof.
  intros Hsound Hcomplete H.
  destruct (completed_solution _ _ _ _ _ _ Hcomplete H)
    as (p & Value & Hp & HS & Hex).
  specialize (Hsound p Hp). rewrite HS in Hsound.
  apply extract_inv in Hex as (_ & _ & _ & Hloss).
  pose proof (optimal_is_least _ _ Hsound eq_refl) as Hleast. cbn [snd] in Hleast.
  apply prepare_inv in Hp as (Hws & Hb).
  destruct (build_model_inv _ _ _ _ _ Hb) as (sf & nc & wc & Hsf & Hnc & Hwc & Hm).
  exists (weights_of p), sf, nc, wc.
  repeat (split; [assumption|]).
  intros al [Hcat Hbud].
  destruct (build_model_satisfied _ _ _ _ _ _ _ _
              (fun cat => al cat / item factors cat) al Hb Hsf Hnc Hwc)
    as [HV' Hvals]; [|exact Hbud|].
  - intros cat Hin.
    pose proof (categories_cases _ Hcat cat Hin) as [(k & Hk & Hal) _ Hd _ _].
    assert (Hf : item factors cat <> 0).
    { rewrite (factors_step_factor cat Hin). unfold step_factor.
      destruct (decide (cat = "transport_expenditure"%string)); lia. }
    assert (Hu : al cat / item factors cat = k).
    { rewrite Hal, (Z.mul_comm (item factors cat) k). apply Z.div_mul. exact Hf. }
    rewrite Hu. split; [exact Hk|]. split; [exact Hal | exact Hd].
  - specialize (Hleast _ HV').
    rewrite (proj2 (Hm Value)) in Hleast. rewrite <- Hloss in Hleast.
    rewrite (proj2 (Hm _)) in Hleast.
    unfold weighted_loss.
    erewrite (foldl_sum_ext _ _ categories); [exact Hleast|].
    intros cat Hin. cbv beta. rewrite (proj2 (Hvals cat Hin)).
    rewrite Z.pow_2_r. ring.
Qed.

(** ** The only error *)

Lemma weights_loop_error ca scale (l : list string) :
  forall (acc : exn + gmap string Z) (e : exn),
    foldl (fun acc cat =>
             (try weights := acc in
              try w := weight scale (get ca cat) in
              inr (<[cat := w]> weights))%exn) acc l = inl e ->
    acc = inl e
    \/ exists cat, cat ∈ l /\ weight scale (get ca cat) = inl e.
Proof.
  induction l as [|x l IH]; intros acc e H; simpl in H.
  - left. exact H.
  - apply IH in H as [H|(cat & Hin & Hw)].
    + destruct acc as [e0|ws0]; [left; exact H|]. simpl in H.
      destruct (weight scale (get ca x)) as [e1|w] eqn:Hw; [|discriminate H].
      right. exists x. split; [left|]. simpl in H. congruence.
    + right. exists cat. split; [right; exact Hin | exact Hw].
Qed.

Lemma weight_defined (scale current_val : Z) :
  0 <= scale < 2 ^ 52 -> - 2 ^ 1000 < current_val < 2 ^ 1000 ->
  current_val <> -1 ->
  is_inr (weight scale current_val) = true.
Proof.
  intros Hs Hc Hne.
  destruct (Z_lt_le_dec current_val 0) as [Hneg|Hpos].
  - rewrite (weight_negative scale current_val Hs) by lia. reflexivity.
  - apply weight_computable; [exact Hs | lia].
Qed.

(** X14: the exceptions of a call whose supplied values are not
    negative (all below [2 ^ 50], as the income).  When needs and savings
    exceed the income by one the call raises ZeroDivisionError in the
    weights; otherwise, when the square of the income is no 64-bit
    integer (an income above 3037000499) it raises TypeError in the
    variable loop; on every other such input it reaches the solver and
    returns. *)
Theorem errors_of_a_non_negative_budget Solve ca scale :
  0 <= scale < 2 ^ 52 ->
  0 <= get ca "monthly_take_home" < 2 ^ 50 ->
  (forall cat, cat ∈ supplied_categories -> 0 <= get ca cat < 2 ^ 50) ->
  (current_total_needs ca + get ca "monthly_savings"
   = get ca "monthly_take_home" + 1 ->
   (optimize Solve ca scale).2 = Raises ZeroDivisionError)
  /\ (current_total_needs ca + get ca "monthly_savings"
      <> get ca "monthly_take_home" + 1 ->
      3037000499 < get ca "monthly_take_home" ->
      (optimize Solve ca scale).2 = Raises TypeError)
  /\ (current_total_needs ca + get ca "monthly_savings"
      <> get ca "monthly_take_home" + 1 ->
      get ca "monthly_take_home" <= 3037000499 ->
      exists r, (optimize Solve ca scale).2 = Returns r).
Proof.
  intros Hscale Hincome Hsup.
  assert (H50 : 8 * 2 ^ 50 < 2 ^ 1000).
  { change 8 with (2 ^ 3). rewrite <- Z.pow_add_r by lia.
    apply Z.pow_lt_mono_r; lia. }
  pose proof (Hsup "transport_expenditure"%string
                ltac:(unfold supplied_categories; repeat constructor)).
  pose proof (Hsup "food_expenditure"%string
                ltac:(unfold supplied_categories; repeat constructor)).
  pose proof (Hsup "housing_expenditure"%string
                ltac:(unfold supplied_categories; repeat constructor)).
  pose proof (Hsup "insurance_expenditure"%string
                ltac:(unfold supplied_categories; repeat constructor)).
  pose proof (Hsup "other_needs_expenditure"%string
                ltac:(unfold supplied_categories; repeat constructor)).
  pose proof (Hsup "investment_expenditure"%string
                ltac:(unfold supplied_categories; repeat constructor)).
  pose proof (Hsup "monthly_savings"%string
                ltac:(unfold supplied_categories; repeat constructor)).
  assert (Hcur : forall cat, cat ∈ categories ->
             - 2 ^ 1000 < get (update_totals ca) cat < 2 ^ 1000
             /\ (cat <> "total_wants"%string ->
                 0 <= get (update_totals ca) cat)).
  { intros cat Hin. unfold categories in Hin.
    repeat (apply elem_of_cons in Hin as [->|Hin];
            [first [ rewrite get_update_totals_needs;
                     unfold current_total_needs, needs_categories;
                     cbn [foldl]; split; [lia | intros _; lia]
                   | rewrite get_update_totals_wants;
                     unfold current_total_wants, current_total_needs,
                       needs_categories;
                     cbn [foldl]; split; [lia | intros Hne; exfalso; apply Hne; reflexivity]
                   | rewrite get_update_totals_other by discriminate;
                     split; [lia | intros _; lia] ]|]).
    inversion Hin. }
  assert (Hweights :
            current_total_needs ca + get ca "monthly_savings"
            <> get ca "monthly_take_home" + 1 ->
            forall cat, cat ∈ categories ->
              is_inr (weight scale (get (update_totals ca) cat)) = true).
  { intros Hne cat Hin. destruct (Hcur cat Hin) as [Hr Hpos].
    apply weight_defined; [exact Hscale | exact Hr |].
    destruct (decide (cat = "total_wants"%string)) as [->|Hnw].
    - rewrite get_update_totals_wants. unfold current_total_wants. lia.
    - specialize (Hpos Hnw). lia. }
  split; [|split].
  - intros Hover.
    assert (Hw : current_total_wants ca = -1)
      by (unfold current_total_wants; lia).
    destruct (wants_minus_one_raises Solve ca scale Hw) as (e & He).
    rewrite He. f_equal.
    unfold optimize, prepare in He. cbn [snd] in He.
    destruct (compute_weights (update_totals ca) scale) as [e'|ws] eqn:Hws.
    + cbn [bindE] in He. injection He as <-.
      apply weights_loop_error in Hws as [Hacc|(cat & Hin & Hwt)];
        [discriminate Hacc|].
      destruct (Z.eq_dec (get (update_totals ca) cat) (-1)) as [E|E].
      * rewrite E in Hwt. rewrite weight_minus_one in Hwt. congruence.
      * pose proof (weight_defined scale _ Hscale (proj1 (Hcur cat Hin)) E) as Hd.
        rewrite Hwt in Hd. discriminate Hd.
    + exfalso.
      destruct (compute_weights_inv _ _ _ Hws "total_wants"%string
                  ltac:(in_categories)) as [Hwt _].
      rewrite get_update_totals_wants, Hw, weight_minus_one in Hwt.
      discriminate Hwt.
  - intros Hne Hbig.
    destruct (weights_loop_total (update_totals ca) scale categories
                (Hweights Hne) (∅ : gmap string Z)) as (ws & Hws).
    unfold optimize, prepare, compute_weights. cbn [snd]. rewrite Hws.
    cbn [bindE]. unfold build_model, bind.
    destruct (for_each (add_category (update_totals ca) ws
                          (get ca "monthly_take_home"))
                no_vars categories empty_model) as [e|r] eqn:Hloop.
    + rewrite (variable_loop_error _ _ _ _ Hloop). reflexivity.
    + exfalso. destruct (variable_loop_fits _ _ _ _ Hloop) as (Hs & _).
      apply in_int64_spec in Hs. rewrite Z.pow_2_r in Hs.
      change (2 ^ 63 - 1) with 9223372036854775807 in Hs. nia.
  - intros Hne Hsmall.
    assert (Hsq : get ca "monthly_take_home" ^ 2 <= 2 ^ 63 - 1).
    { rewrite Z.pow_2_r. change (2 ^ 63 - 1) with 9223372036854775807. nia. }
    assert (Hfits : forall cat, cat ∈ categories ->
                      in_int64 (get (update_totals ca) cat) = true).
    { intros cat Hin. apply in_int64_spec.
      assert (H63 : 8 * 2 ^ 50 < 2 ^ 63).
      { change 8 with (2 ^ 3). rewrite <- Z.pow_add_r by lia.
        apply Z.pow_lt_mono_r; lia. }
      revert Hin. clear - Hincome H H0 H1 H2 H3 H4 H5 H63.
      intros Hin. unfold categories in Hin.
      repeat (apply elem_of_cons in Hin as [->|Hin];
              [first [ rewrite get_update_totals_needs;
                       unfold current_total_needs, needs_categories;
                       cbn [foldl]; lia
                     | rewrite get_update_totals_wants;
                       unfold current_total_wants, current_total_needs,
                         needs_categories;
                       cbn [foldl]; lia
                     | rewrite get_update_totals_other by discriminate; lia ]|]).
      inversion Hin. }
    destruct (prepare_total (update_totals ca) (get ca "monthly_take_home")
                scale (Hweights Hne) (proj1 Hincome) Hsq Hfits) as (p & Hp).
    exists (extract p (Solve (model_of p))).
    unfold optimize. cbn [snd]. rewrite Hp. reflexivity.
Qed.

(** ** These properties on the reference run *)

(** X1 on the reference run: the income 4000. *)
Lemma solution_only_for_income_multiple_of_50_witness :
  0 <= get ref_input "monthly_take_home"
  /\ get ref_input "monthly_take_home" mod 50 = 0.
Proof.
  apply (solution_only_for_income_multiple_of_50
           (answer FEASIBLE ref_values) ref_input 1000
           (update_totals ref_input) ref_result 20000).
  - exact (ref_answer_sound FEASIBLE eq_refl).
  - exact (ref_answer_run FEASIBLE eq_refl).
Defined.

(** X2 on the reference run. *)
Lemma transport_is_multiple_of_50_witness :
  exists v, ref_result !! "transport_expenditure" = Some v /\ v mod 50 = 0.
Proof.
  apply (transport_is_multiple_of_50
           (answer FEASIBLE ref_values) ref_input 1000
           (update_totals ref_input) ref_result 20000).
  - exact (ref_answer_sound FEASIBLE eq_refl).
  - exact (ref_answer_run FEASIBLE eq_refl).
Defined.

(** X3 on the reference run, for total_wants. *)
Lemma no_category_moves_more_than_income_witness :
  exists v, ref_result !! "total_wants" = Some v
            /\ Z.abs (v - get (update_totals ref_input) "total_wants")
               <= get ref_input "monthly_take_home"
            /\ - get ref_input "monthly_take_home"
               <= get (update_totals ref_input) "total_wants"
               <= 2 * get ref_input "monthly_take_home".
Proof.
  apply (no_category_moves_more_than_income
           (answer FEASIBLE ref_values) ref_input 1000
           (update_totals ref_input) ref_result 20000).
  - exact (ref_answer_sound FEASIBLE eq_refl).
  - exact (ref_answer_run FEASIBLE eq_refl).
  - in_categories.
Defined.

(** X4 on the reference run. *)
Lemma loss_zero_iff_nothing_changes_witness :
  0 <= 20000
  /\ (20000 = 0 <->
      forall cat, cat ∈ categories ->
                  ref_result !! cat = Some (get (update_totals ref_input) cat)).
Proof.
  apply (loss_zero_iff_nothing_changes
           (answer FEASIBLE ref_values) ref_input 1000
           (update_totals ref_input) ref_result 20000).
  - exact (ref_answer_sound FEASIBLE eq_refl).
  - exact (ref_answer_run FEASIBLE eq_refl).
Defined.

(** X6 on the reference run with the status OPTIMAL. *)
Lemma investment_is_a_nearest_step_witness :
  exists v,
    ref_result !! "investment_expenditure" = Some v
    /\ forall k,
        0 <= k <= get ref_input "monthly_take_home" / 50 ->
        - get ref_input "monthly_take_home"
        <= 50 * k - get ref_input "investment_expenditure"
        <= get ref_input "monthly_take_home" ->
        Z.abs (v - get ref_input "investment_expenditure")
        <= Z.abs (50 * k - get ref_input "investment_expenditure").
Proof.
  apply (investment_is_a_nearest_step
           (answer OPTIMAL ref_values) ref_input 1000
           (update_totals ref_input) ref_result 20000).
  - exact (ref_answer_sound OPTIMAL eq_refl).
  - intros p _. left. reflexivity.
  - exact (ref_answer_run OPTIMAL eq_refl).
Defined.

Lemma ref_input_within_income :
  (forall cat, cat ∈ supplied_categories -> 0 <= get ref_input cat)
  /\ current_total_needs ref_input + get ref_input "monthly_savings"
     <= get ref_input "monthly_take_home"
  /\ get ref_input "investment_expenditure"
     <= 2 * get ref_input "monthly_take_home".
Proof.
  split; [|split; vm_compute; intros H; discriminate H].
  intros cat Hin. unfold supplied_categories in Hin.
  repeat (apply elem_of_cons in Hin as [->|Hin];
          [vm_compute; intros H; discriminate H|]).
  inversion Hin.
Qed.

(** X8 on the reference input. *)
Lemma budget_within_income_gets_a_solution_witness :
  exists res loss,
    optimize (answer OPTIMAL ref_values) ref_input 1000
    = (update_totals ref_input, Returns (Some (res, loss))).
Proof.
  destruct ref_input_within_income as (Hpos & Hsum & Hinv).
  apply (budget_within_income_gets_a_solution
           (answer OPTIMAL ref_values) ref_input 1000).
  - lia.
  - rewrite ref_income. lia.
  - rewrite ref_income. vm_compute. intros H. discriminate H.
  - rewrite ref_income. reflexivity.
  - exact Hpos.
  - exact Hsum.
  - exact Hinv.
  - exact (ref_answer_sound OPTIMAL eq_refl).
  - intros p _. left. reflexivity.
Defined.

Lemma ref_result_unchanged_answer :
  SolverSoundFor
    (unchanged_answer (as_input (get ref_input "monthly_take_home") ref_result))
    (as_input (get ref_input "monthly_take_home") ref_result) 1000
  /\ SolverCompleteFor
       (unchanged_answer (as_input (get ref_input "monthly_take_home") ref_result))
       (as_input (get ref_input "monthly_take_home") ref_result) 1000.
Proof.
  apply (unchanged_answer_sound _ 1000 800 2000 1200);
    try (vm_compute; reflexivity).
  - intros cat Hin. unfold categories in Hin.
    repeat (apply elem_of_cons in Hin as [->|Hin];
            [vm_compute; repeat split; intros H; discriminate H|]).
    inversion Hin.
  - split; vm_compute; first [reflexivity | intros H; discriminate H].
Qed.

(** X7 on the allocation of the reference run. *)
Lemma a_returned_allocation_is_a_fixed_point_witness :
  (optimize
     (unchanged_answer (as_input (get ref_input "monthly_take_home") ref_result))
     (as_input (get ref_input "monthly_take_home") ref_result) 1000).2
  = Returns (Some (ref_result, 0)).
Proof.
  apply (a_returned_allocation_is_a_fixed_point
           (answer FEASIBLE ref_values)
           (unchanged_answer
              (as_input (get ref_input "monthly_take_home") ref_result))
           ref_input 1000 (update_totals ref_input) ref_result 20000).
  - lia.
  - rewrite ref_income. reflexivity.
  - exact (ref_answer_sound FEASIBLE eq_refl).
  - exact (ref_answer_run FEASIBLE eq_refl).
  - exact (proj1 ref_result_unchanged_answer).
  - exact (proj2 ref_result_unchanged_answer).
Defined.

(** X9 for the scale 1000 and the current value 300. *)
Lemma weight_is_the_rounded_quotient_witness :
  weight 1000 300 = inr (Z.max 1 (round_half_even_div 1000 (300 + 1))).
Proof.
  apply (weight_is_the_rounded_quotient 1000 300).
  - lia.
  - split; [lia | reflexivity].
Defined.

(** X10 for the scale 1000 and the current value -100. *)
Lemma weight_of_a_negative_value_is_1_witness :
  weight 1000 (-100) = inr 1.
Proof.
  apply (weight_of_a_negative_value_is_1 1000 (-100)).
  - lia.
  - split; [reflexivity | lia].
Defined.

(** X11 for the current values 700 and 100 at the scale 1000. *)
Lemma lower_allocation_higher_weight_witness :
  exists w1 w2,
    weight 1000 700 = inr w1 /\ weight 1000 100 = inr w2 /\ w1 <= w2.
Proof.
  apply (lower_allocation_higher_weight 1000 1000 700 100).
  - lia.
  - lia.
  - lia.
  - reflexivity.
Defined.

(** X12 for the scale 1000 and the current value 666. *)
Lemma weight_is_1_from_two_thirds_of_scale_witness :
  weight 1000 666 = inr 1 <-> 2 * 1000 < 3 * (666 + 1).
Proof.
  apply (weight_is_1_from_two_thirds_of_scale 1000 666).
  - lia.
  - split; [lia | reflexivity].
Defined.

(** X13 on the reference run with the status OPTIMAL. *)
Lemma returned_loss_is_least_witness :
  exists ws sf nc wc,
    compute_weights (update_totals ref_input) 1000 = inr ws
    /\ int_fraction PyFloat.lit_0_2 (get ref_input "monthly_take_home") = inr sf
    /\ int_fraction PyFloat.lit_0_5 (get ref_input "monthly_take_home") = inr nc
    /\ int_fraction PyFloat.lit_0_3 (get ref_input "monthly_take_home") = inr wc
    /\ forall al,
        admissible (get ref_input "monthly_take_home") sf nc wc
                   (get (update_totals ref_input)) al ->
        20000 <= weighted_loss (item ws) (get (update_totals ref_input)) al.
Proof.
  apply (returned_loss_is_least
           (answer OPTIMAL ref_values) ref_input 1000
           (update_totals ref_input) ref_result 20000).
  - exact (ref_answer_sound OPTIMAL eq_refl).
  - intros p _. left. reflexivity.
  - exact (ref_answer_run OPTIMAL eq_refl).
Defined.

Lemma ref_input_supplied_range :
  forall cat, cat ∈ supplied_categories -> 0 <= get ref_input cat < 2 ^ 50.
Proof.
  intros cat Hin. unfold supplied_categories in Hin.
  repeat (apply elem_of_cons in Hin as [->|Hin];
          [split; [vm_compute; intros H; discriminate H | reflexivity]|]).
  inversion Hin.
Qed.

(** X14 on the reference input. *)
Lemma errors_of_a_non_negative_budget_witness :
  (current_total_needs ref_input + get ref_input "monthly_savings"
   = get ref_input "monthly_take_home" + 1 ->
   (optimize (answer OPTIMAL ref_values) ref_input 1000).2
   = Raises ZeroDivisionError)
  /\ (current_total_needs ref_input + get ref_input "monthly_savings"
      <> get ref_input "monthly_take_home" + 1 ->
      3037000499 < get ref_input "monthly_take_home" ->
      (optimize (answer OPTIMAL ref_values) ref_input 1000).2
      = Raises TypeError)
  /\ (current_total_needs ref_input + get ref_input "monthly_savings"
      <> get ref_input "monthly_take_home" + 1 ->
      get ref_input "monthly_take_home" <= 3037000499 ->
      exists r, (optimize (answer OPTIMAL ref_values) ref_input 1000).2
                = Returns r).
Proof.
  apply (errors_of_a_non_negative_budget
           (answer OPTIMAL ref_values) ref_input 1000).
  - lia.
  - rewrite ref_income. lia.
  - exact ref_input_supplied_range.
Defined.
